(** * ultrain-ts-lib: assets, symbols and permission levels

    A shallow embedding of [src/asset.ts] and [src/permission-level.ts] of
    ultrain-ts-lib (AssemblyScript compiled to WebAssembly), and the
    properties of the symbol codec, of the [Asset] arithmetic and of the
    binary serialisation that the contract code relies on.

    Conventions of the embedding:
    - an unsigned [w]-bit integer is a [Z] in [0, 2^w); every operation that
      can leave the range is followed by its wrap-around, written out;
    - an AssemblyScript string is the list of its UTF-16 code units;
    - [ultrain_assert] aborts the running action with its message; a
      WebAssembly trap (null reference, out-of-bounds load, float to
      integer conversion out of range) is a separate outcome;
    - [Asset] objects live in a store and are handled through references,
      since the arithmetic methods mutate [this] and return it. *)

From Stdlib Require Import ZArith Lia String Ascii List Bool.
From stdpp Require Import base option list gmap.
Import ListNotations.
Local Open Scope Z_scope.

(** ** Machine integers *)

Module MachineInt.

Definition wrap (w : Z) (z : Z) : Z := z mod 2 ^ w.

Definition wrap8 : Z -> Z := wrap 8.
Definition wrap64 : Z -> Z := wrap 64.

Definition is_u8 (z : Z) : Prop := 0 <= z < 2 ^ 8.
Definition is_u64 (z : Z) : Prop := 0 <= z < 2 ^ 64.

(** [i64.shr_u] and [i64.shl]: the shift count is taken modulo 64. *)
Definition shr64 (x n : Z) : Z := Z.shiftr x (n mod 64).
Definition shl64 (x n : Z) : Z := wrap64 (Z.shiftl x (n mod 64)).

(** Reading a [u64] as an [i64] (same bits). *)
Definition to_i64 (x : Z) : Z := if x <? 2 ^ 63 then x else x - 2 ^ 64.

End MachineInt.
Import MachineInt.

(** ** Outcomes *)

Inductive result (A : Type) : Type :=
| Ok (a : A)
| Abort (msg : string)
| Trap
| OutOfFuel.
Arguments Ok {A} a.
Arguments Abort {A} msg.
Arguments Trap {A}.
Arguments OutOfFuel {A}.

Definition rbind {A B} (r : result A) (k : A -> result B) : result B :=
  match r with
  | Ok a => k a
  | Abort msg => Abort msg
  | Trap => Trap
  | OutOfFuel => OutOfFuel
  end.

#[export] Instance result_ret : MRet result := @Ok.
#[export] Instance result_bind : MBind result := fun A B k r => rbind r k.

(** [ultrain_assert(cond, msg)] is a host function: it aborts the action
    with [msg] when [cond] is false and does nothing otherwise. *)
Definition ultrain_assert (cond : bool) (msg : string) : result unit :=
  if cond then Ok tt else Abort msg.

(** ** Strings *)

Abbreviation jsstring := (list Z).

(** The code units of a literal (all below 256). *)
Definition lit (s : string) : jsstring :=
  map (fun c => Z.of_N (N_of_ascii c)) (list_ascii_of_string s).

(** [String#charCodeAt]: -1 outside the string. *)
Definition charCodeAt (str : jsstring) (i : Z) : Z :=
  if (i <? 0) then -1 else
  match str !! Z.to_nat i with
  | Some c => c
  | None => -1
  end.

(** ** Symbols *)

Definition CHAR_A : Z := 0x41.
Definition CHAR_Z : Z := 0x5A.

(** One iteration of the loop of [StringToSymbol]; the state is the
    accumulated [result] and the character codes reported through [Log],
    which is all the loop does with a character outside [A-Z]. *)
Definition StringToSymbol_body (str : jsstring) (st : Z * list Z) (i : Z)
  : Z * list Z :=
  let '(result, logged) := st in
  let charCode := wrap8 (Z.land (charCodeAt str i) 0xff) in
  if (charCode <? CHAR_A) || (charCode >? CHAR_Z)
  then (result, logged ++ [charCode])
  else (Z.lor result (shl64 charCode (8 * (i + 1))), logged).

(** The counter [i] is a [u8] running from 0 up to [len <= 7], so it never
    wraps and the loop is the fold over [0, 1, ..., len - 1]. *)
Definition StringToSymbol_logged (precision : Z) (str : jsstring)
  : result (Z * list Z) :=
  let len := wrap8 (Z.of_nat (length str)) in
  ultrain_assert (len <=? 7) "length of _symbol name must be less than 7.";;
  let '(result, logged) :=
    fold_left (StringToSymbol_body str) (seqZ 0 len) (0, []) in
  mret (Z.lor result precision, logged).

Definition StringToSymbol (precision : Z) (str : jsstring) : result Z :=
  r ← StringToSymbol_logged precision str; mret (fst r).

(** The [while] loop of [SymbolNameLength]. *)
Fixpoint SymbolNameLength_loop (fuel : nat) (symbolName length : Z) : result Z :=
  match fuel with
  | O => OutOfFuel
  | S fuel =>
      if negb (Z.land symbolName 0xff =? 0) && (length <=? 7)
      then SymbolNameLength_loop fuel (shr64 symbolName 8) (length + 1)
      else Ok length
  end.

Definition SymbolNameLength (symbolName : Z) : result Z :=
  SymbolNameLength_loop 9 (shr64 symbolName 8) 0.

(** The globals [SYS] and [SYS_NAME], set when the module is loaded. *)
Definition SYS : result Z := StringToSymbol 4 (lit "UGAS").
Definition SYS_NAME : result Z := s ← SYS; mret (shr64 s 8).

(** ** The object store *)

Definition loc := nat.

Section Store.
Context {T : Type}.

(** A computation over the store of the objects of class [T]. *)
Definition M (A : Type) : Type := gmap loc T -> result (A * gmap loc T).

Definition M_ret {A} (a : A) : M A := fun h => Ok (a, h).

Definition M_bind {A B} (k : A -> M B) (c : M A) : M B :=
  fun h =>
    match c h with
    | Ok (a, h') => k a h'
    | Abort msg => Abort msg
    | Trap => Trap
    | OutOfFuel => OutOfFuel
    end.

(** An outcome that does not touch the store. *)
Definition lift {A} (r : result A) : M A :=
  fun h => a ← r; mret (a, h).

(** [new T(...)]: a reference no live object has. *)
Definition alloc (o : T) : M loc :=
  fun h => let l := fresh (dom h) in Ok (l, <[l := o]> h).

(** Dereferencing; a reference to no object traps. *)
Definition load (r : loc) : M T :=
  fun h => match h !! r with Some o => Ok (o, h) | None => Trap end.

Definition store (r : loc) (o : T) : M unit :=
  fun h => match h !! r with Some _ => Ok (tt, <[r := o]> h) | None => Trap end.

End Store.
Arguments M : clear implicits.

#[export] Instance M_mret {T} : MRet (M T) := @M_ret T.
#[export] Instance M_mbind {T} : MBind (M T) := @M_bind T.

(** ** Assets *)

Record Asset : Type := mkAsset { _amount : Z; _symbol : Z }.

Module AssetFields.
Definition rd_amount (r : loc) : M Asset Z := a ← load r; mret (_amount a).
Definition rd_symbol (r : loc) : M Asset Z := a ← load r; mret (_symbol a).
Definition wr_amount (r : loc) (v : Z) : M Asset unit :=
  a ← load r; store r (mkAsset v (_symbol a)).
Definition wr_symbol (r : loc) (v : Z) : M Asset unit :=
  a ← load r; store r (mkAsset (_amount a) v).
End AssetFields.
Import AssetFields.

(** [(1 << 62) - 1]: the constant is declared [u64], which types the
    literals of its initialiser, so the shift is a 64-bit one. *)
Definition MAX_AMOUNT : Z := wrap64 (shl64 1 62 - 1).

(** The constructor, with its default arguments spelt out by [new_Asset0]. *)
Definition new_Asset (amt sy : Z) : M Asset loc := alloc (mkAsset amt sy).
Definition new_Asset0 : M Asset loc := new_Asset 0 0x5341475504.

(** *** Validity of the symbol *)

(** The inner [do ... while (i < 7)] of [isSymbolValid], on the locals
    [sym] and [i]: [None] when the method returns [false] from inside the
    loop, the locals at the exit otherwise. [i] stays below 9. *)
Fixpoint isSymbolValid_dowhile (fuel : nat) (sym i : Z) : result (option (Z * Z)) :=
  match fuel with
  | O => OutOfFuel
  | S fuel =>
      let sym := shr64 sym 8 in
      if negb (Z.land sym 0xff =? 0) then Ok None
      else
        let i := i + 1 in
        if i <? 7 then isSymbolValid_dowhile fuel sym i else Ok (Some (sym, i))
  end.

(** The [for (i = 0; i < 7; ++i)] loop of [isSymbolValid]. *)
Fixpoint isSymbolValid_for (fuel : nat) (sym i : Z) : result bool :=
  match fuel with
  | O => OutOfFuel
  | S fuel =>
      if i <? 7 then
        let c := wrap8 (Z.land sym 0xff) in
        if (c <? CHAR_A) || (c >? CHAR_Z) then Ok false
        else
          let sym := shr64 sym 8 in
          if Z.land sym 0xff =? 0 then
            r ← isSymbolValid_dowhile 8 sym i;
            match r with
            | None => Ok false
            | Some (sym, i) => isSymbolValid_for fuel sym (i + 1)
            end
          else isSymbolValid_for fuel sym (i + 1)
      else Ok true
  end.

Definition isSymbolValid (this : loc) : M Asset bool :=
  sym ← rd_symbol this;
  lift (isSymbolValid_for 8 (shr64 sym 8) 0).

(** *** Accessors *)

Definition isAmountWithinRange (amount : Z) : bool :=
  (0 <=? amount) && (amount <=? MAX_AMOUNT).

Definition getAmount (this : loc) : M Asset Z := rd_amount this.

Definition setAmount (this : loc) (newAmount : Z) : M Asset unit :=
  if isAmountWithinRange newAmount then wr_amount this newAmount else mret tt.

(** The property [amount]: its getter and its setter. *)
Definition amount_get (this : loc) : M Asset Z := rd_amount this.
Definition amount_set (this : loc) (a : Z) : M Asset unit := setAmount this a.

Definition getSymbol (this : loc) : M Asset Z := rd_symbol this.
Definition setSymbol (this : loc) (newSymbol : Z) : M Asset unit :=
  wr_symbol this newSymbol.

Definition symbolPrecision (this : loc) : M Asset Z :=
  s ← rd_symbol this; mret (Z.land s 0xff).

Definition symbolName (this : loc) : M Asset Z :=
  s ← rd_symbol this; mret (shr64 s 8).

Definition symbolNameLength (this : loc) : M Asset Z :=
  s ← rd_symbol this; lift (SymbolNameLength s).

Definition isValid (this : loc) : M Asset bool :=
  a ← rd_amount this;
  if isAmountWithinRange a then isSymbolValid this else mret false.

(** *** Comparisons; [&&] evaluates its right operand only when the left
    one is true. *)

Definition gt (this lhs : loc) : M Asset bool :=
  ts ← rd_symbol this; ls ← rd_symbol lhs;
  if ts =? ls then ta ← rd_amount this; la ← rd_amount lhs; mret (ta >? la)
  else mret false.

Definition gte (this lhs : loc) : M Asset bool :=
  ts ← rd_symbol this; ls ← rd_symbol lhs;
  if ts =? ls then ta ← rd_amount this; la ← rd_amount lhs; mret (ta >=? la)
  else mret false.

Definition lt (this lhs : loc) : M Asset bool :=
  ts ← rd_symbol this; ls ← rd_symbol lhs;
  if ts =? ls then ta ← rd_amount this; la ← rd_amount lhs; mret (ta <? la)
  else mret false.

Definition lte (this lhs : loc) : M Asset bool :=
  ts ← rd_symbol this; ls ← rd_symbol lhs;
  if ts =? ls then ta ← rd_amount this; la ← rd_amount lhs; mret (ta <=? la)
  else mret false.

Definition eq (this lhs : loc) : M Asset bool :=
  ts ← rd_symbol this; ls ← rd_symbol lhs;
  if ts =? ls then ta ← rd_amount this; la ← rd_amount lhs; mret (ta =? la)
  else mret false.

(** The private helper [checkOperatorCondition]; no method calls it. *)
Definition checkOperatorCondition (rhs lhs : loc) (op : string) : M Asset unit :=
  rs ← rd_symbol rhs; ls ← rd_symbol lhs;
  lift (ultrain_assert (rs =? ls) "can not compare Asset with different symbol.").

(** *** Arithmetic: each method updates [this] and returns it *)

Definition clone (this : loc) : M Asset loc :=
  ast ← new_Asset0;
  a ← rd_amount this; wr_amount ast a;;
  s ← rd_symbol this; wr_symbol ast s;;
  mret ast.

Definition add (this rhs : loc) : M Asset loc :=
  rs ← rd_symbol rhs; ts ← rd_symbol this;
  lift (ultrain_assert (rs =? ts)
          "add: can not compare Asset with different _symbol.");;
  ta ← rd_amount this; ra ← rd_amount rhs;
  wr_amount this (wrap64 (ta + ra));;
  mret this.

Definition sub (this rhs : loc) : M Asset loc :=
  rs ← rd_symbol rhs; ts ← rd_symbol this;
  lift (ultrain_assert (rs =? ts)
          "sub: can not compare Asset with different _symbol.");;
  ta ← rd_amount this; ra ← rd_amount rhs;
  lift (ultrain_assert (ta >=? ra)
          "sub: the amount is less than target asset.");;
  ta ← rd_amount this; ra ← rd_amount rhs;
  wr_amount this (wrap64 (ta - ra));;
  mret this.

Definition multi (this : loc) (rhs : Z) : M Asset loc :=
  ta ← rd_amount this;
  wr_amount this (wrap64 (ta * rhs));;
  mret this.

Definition divide (this : loc) (rhs : Z) : M Asset loc :=
  lift (ultrain_assert (negb (rhs =? 0)) "divide by 0");;
  ta ← rd_amount this;
  wr_amount this (ta / rhs);;
  mret this.

(** *** Rendering *)

(** The decimal digits of a non-negative number, most significant first,
    in front of [acc]. Twenty steps cover every 64-bit value. *)
Fixpoint utoa_go (fuel : nat) (n : Z) (acc : jsstring) : jsstring :=
  match fuel with
  | O => acc
  | S fuel =>
      let acc := (0x30 + n mod 10) :: acc in
      if n / 10 =? 0 then acc else utoa_go fuel (n / 10) acc
  end.

Definition utoa (n : Z) : jsstring := utoa_go 20 n [].

(** [itoa64] of AssemblyScript's [internal/number]: the decimal rendering
    of its argument read as a signed 64-bit integer. The amounts of the
    statements below stay under [2^63], where the reading changes nothing. *)
Definition itoa64 (value : Z) : jsstring :=
  let v := to_i64 value in
  if v <? 0 then lit "-" ++ utoa (- v) else utoa v.

(** [String#repeat]; a negative count fails its assertion. *)
Definition jsrepeat (s : jsstring) (count : Z) : result jsstring :=
  if count <? 0 then Trap else Ok (mjoin (replicate (Z.to_nat count) s)).

(** [<u64>Math.pow(10, <i32>precision)]: the power of an integer by an
    integer is delivered exactly as long as it is representable, which
    [10^precision] is up to [precision = 22]; the conversion to [u64] is
    defined below [2^64] only, that is up to [precision = 19], and traps
    beyond. *)
Definition pow10_u64 (precision : Z) : result Z :=
  if precision <=? 19 then Ok (10 ^ precision) else Trap.

Definition formatAmount (amount precision : Z) : result jsstring :=
  digit ← pow10_u64 precision;
  let integer := amount / digit in
  let amountstr := itoa64 integer in
  if negb (precision =? 0) then
    let decimal := itoa64 (amount mod digit) in
    if negb (Z.of_nat (length decimal) =? precision) then
      zeros ← jsrepeat (lit "0") (precision - Z.of_nat (length decimal));
      mret (amountstr ++ lit "." ++ zeros ++ decimal)
    else mret (amountstr ++ lit "." ++ decimal)
  else mret amountstr.

(** One iteration of the loop of [toString], on the locals [_symbol] and
    [symbol]. *)
Definition toString_body (st : Z * jsstring) (i : Z) : Z * jsstring :=
  let '(_symbol, symbol) := st in
  let _symbol := shr64 _symbol 8 in
  let charCode := wrap8 (Z.land _symbol 0xFF) in
  if (charCode >=? CHAR_A) && (charCode <=? CHAR_Z)
  then (_symbol, symbol ++ [charCode])
  else (_symbol, symbol).

Definition toString (this : loc) : M Asset jsstring :=
  _symbol ← rd_symbol this;
  let precision := wrap8 (Z.land _symbol 0xFF) in
  let '(_, symbol) := fold_left toString_body (seqZ 0 7) (_symbol, []) in
  amount ← amount_get this;
  s ← lift (formatAmount amount precision);
  mret (s ++ lit " " ++ symbol).

(** ** Binary streams *)

(** The [n] little-endian bytes of [v], and the value of a little-endian
    byte sequence. *)
Fixpoint le_bytes (n : nat) (v : Z) : list Z :=
  match n with
  | O => []
  | S n => v mod 256 :: le_bytes n (v / 256)
  end.

Fixpoint le_value (bs : list Z) : Z :=
  match bs with
  | [] => 0
  | b :: bs => b + 256 * le_value bs
  end.

(** Modelled from the spec: the class [DataStream], whose [read<u64>] and
    [write<u64>] the two classes call and which neither file defines.
    Following the wire format of section 6 (fixed order, no padding,
    little-endian, no length prefix) a stream is a byte buffer with a cursor
    [pos]; [write<u64>] puts the eight bytes of its argument at the cursor,
    [read<u64>] takes eight bytes from the cursor, and both move the cursor
    by eight. Reading past the end of the buffer is an out-of-bounds
    access. *)
Record DataStream : Type := mkDataStream { buffer : list Z; pos : nat }.

Definition write_u64 (ds : DataStream) (v : Z) : DataStream :=
  {| buffer := take (pos ds) (buffer ds) ++ le_bytes 8 v
               ++ drop (pos ds + 8) (buffer ds);
     pos := pos ds + 8 |}.

Definition read_u64 (ds : DataStream) : result (Z * DataStream) :=
  if decide (pos ds + 8 <= length (buffer ds))%nat
  then Ok (le_value (take 8 (drop (pos ds) (buffer ds))),
           {| buffer := buffer ds; pos := pos ds + 8 |})
  else Trap.

(** The interface [Serializable]. The stream is passed in and handed back:
    it is an object of its own, never an alias of the receiver. *)
Class Serializable (T : Type) : Type := {
  serialize : loc -> DataStream -> M T DataStream;
  deserialize : loc -> DataStream -> M T DataStream;
  primaryKey : loc -> M T Z
}.

Definition Asset_deserialize (this : loc) (ds : DataStream) : M Asset DataStream :=
  '(v, ds) ← lift (read_u64 ds); wr_amount this v;;
  '(v, ds) ← lift (read_u64 ds); wr_symbol this v;;
  mret ds.

Definition Asset_serialize (this : loc) (ds : DataStream) : M Asset DataStream :=
  a ← rd_amount this; let ds := write_u64 ds a in
  s ← rd_symbol this; let ds := write_u64 ds s in
  mret ds.

Definition Asset_primaryKey (this : loc) : M Asset Z := mret 0.

#[export] Instance Asset_Serializable : Serializable Asset :=
  {| serialize := Asset_serialize;
     deserialize := Asset_deserialize;
     primaryKey := Asset_primaryKey |}.

(** ** Permission levels *)

Record PermissionLevel : Type := mkPermissionLevel { actor : Z; permission : Z }.

Definition new_PermissionLevel (actor permission : Z) : M PermissionLevel loc :=
  alloc (mkPermissionLevel actor permission).

Definition equal (this rhs : loc) : M PermissionLevel bool :=
  t ← load this; r ← load rhs;
  if actor t =? actor r then
    t ← load this; r ← load rhs; mret (permission t =? permission r)
  else mret false.

Definition PermissionLevel_serialize (this : loc) (ds : DataStream)
  : M PermissionLevel DataStream :=
  t ← load this; let ds := write_u64 ds (actor t) in
  t ← load this; let ds := write_u64 ds (permission t) in
  mret ds.

Definition PermissionLevel_deserialize (this : loc) (ds : DataStream)
  : M PermissionLevel DataStream :=
  '(v, ds) ← lift (read_u64 ds);
  t ← load this; store this (mkPermissionLevel v (permission t));;
  '(v, ds) ← lift (read_u64 ds);
  t ← load this; store this (mkPermissionLevel (actor t) v);;
  mret ds.

Definition PermissionLevel_primaryKey (this : loc) : M PermissionLevel Z := mret 0.

#[export] Instance PermissionLevel_Serializable : Serializable PermissionLevel :=
  {| serialize := PermissionLevel_serialize;
     deserialize := PermissionLevel_deserialize;
     primaryKey := PermissionLevel_primaryKey |}.

(** ** Vocabulary of the statements *)

(** The outcome of a computation started on the empty store. *)
Definition run {T A} (c : M T A) : result A :=
  match c ∅ with
  | Ok (a, _) => Ok a
  | Abort msg => Abort msg
  | Trap => Trap
  | OutOfFuel => OutOfFuel
  end.

(** The messages of the assertions of [add] and [sub]. *)
Definition add_mismatch : string :=
  "add: can not compare Asset with different _symbol.".
Definition sub_mismatch : string :=
  "sub: can not compare Asset with different _symbol.".
Definition sub_insufficient : string :=
  "sub: the amount is less than target asset.".

(** The stream over the same buffer with the cursor put back at [p]. *)
Definition rewind (s : DataStream) (p : nat) : DataStream :=
  mkDataStream (buffer s) p.

(** The number whose bytes, least significant first, are [cs]. *)
Fixpoint pack (cs : list Z) : Z :=
  match cs with
  | [] => 0
  | c :: cs => c + 256 * pack cs
  end.

Definition is_upper (c : Z) : Prop := CHAR_A <= c <= CHAR_Z.

(** The fractional part: [amount mod 10^p], padded with zeros in front to
    [p] digits. *)
Definition fraction (amount p : Z) : jsstring :=
  let decimal := utoa (amount mod 10 ^ p) in
  replicate (Z.to_nat p - length decimal) 0x30 ++ decimal.

(** The number a string of decimal digits denotes. *)
Definition dec_value (s : jsstring) : Z :=
  fold_left (fun v d => 10 * v + (d - 0x30)) s 0.

(** *** Sample symbols and stores *)

(** The symbols of precision 4 and name "UGAS", and of precision 0 and
    name "XRT". *)
Definition UGAS : Z := 0x5341475504.
Definition XRT0 : Z := 0x54525800.

Definition store_5_3 : gmap loc Asset :=
  <[1%nat := mkAsset 3 UGAS]> (<[0%nat := mkAsset 5 UGAS]> ∅).

Definition store_ugas_xrt : gmap loc Asset :=
  <[1%nat := mkAsset 3 XRT0]> (<[0%nat := mkAsset 5 UGAS]> ∅).

Definition store_max : gmap loc Asset := <[0%nat := mkAsset (2 ^ 62 - 1) UGAS]> ∅.

Definition store_10000 : gmap loc Asset := <[0%nat := mkAsset 10000 UGAS]> ∅.

Definition tom_active : PermissionLevel :=
  mkPermissionLevel 0xCD20000000000000 0x3232EDA800000000.

Definition store_tom : gmap loc PermissionLevel :=
  <[1%nat := mkPermissionLevel 0 0]> (<[0%nat := tom_active]> ∅).

(** *** Bytes of a name *)

(** The low byte of a code unit, as [StringToSymbol] takes it. *)
Definition low_byte (c : Z) : Z := wrap8 (Z.land c 0xff).

Definition upperb (b : Z) : bool := (CHAR_A <=? b) && (b <=? CHAR_Z).

(** What a character leaves in the symbol: its low byte when that is a
    capital letter, a zero byte otherwise. *)
Definition name_byte (c : Z) : Z :=
  if upperb (low_byte c) then low_byte c else 0.

(** The seven bytes above the precision byte of a symbol. *)
Definition name_bytes (sym : Z) : list Z :=
  map (fun j => (sym / 256 ^ (j + 1)) mod 256) (seqZ 0 7).

(** The sixteen bytes of a record of two [u64] fields. *)
Definition record_bytes (v w : Z) : list Z := le_bytes 8 v ++ le_bytes 8 w.

(** An asset with the symbol of "AB", and one whose symbol has a zero
    byte between letters. *)
Definition store_AB : gmap loc Asset := <[0%nat := mkAsset 1 0x424104]> ∅.

Definition store_gap : gmap loc Asset := <[0%nat := mkAsset 10000 0x4100414104]> ∅.

(** * Properties *)

(** ** Sample runs *)

Example StringToSymbol_ABC :
  StringToSymbol 4 (lit "ABC") = Ok 0x43424104.
Proof. reflexivity. Qed.

Example StringToSymbol_UGAS :
  StringToSymbol 4 (lit "UGAS") = Ok 0x5341475504.
Proof. reflexivity. Qed.

Example SYS_value : SYS = Ok UGAS /\ SYS_NAME = Ok 0x53414755.
Proof. split; reflexivity. Qed.

Example StringToSymbol_XRT :
  StringToSymbol 0 (lit "XRT") = Ok XRT0.
Proof. reflexivity. Qed.

Example MAX_AMOUNT_value : MAX_AMOUNT = 2 ^ 62 - 1.
Proof. reflexivity. Qed.

Example toString_UGAS :
  run (a ← new_Asset 10000 UGAS; toString a) = Ok (lit "1.0000 UGAS").
Proof. vm_compute. reflexivity. Qed.

Example toString_small :
  run (a ← new_Asset 12345607 UGAS; toString a) = Ok (lit "1234.5607 UGAS").
Proof. vm_compute. reflexivity. Qed.

Example toString_frac :
  run (a ← new_Asset 7 UGAS; toString a) = Ok (lit "0.0007 UGAS").
Proof. vm_compute. reflexivity. Qed.

Example isSymbolValid_UGAS :
  run (a ← new_Asset 1 UGAS; isSymbolValid a) = Ok true.
Proof. vm_compute. reflexivity. Qed.

Example isSymbolValid_empty :
  run (a ← new_Asset 1 4; isSymbolValid a) = Ok false.
Proof. vm_compute. reflexivity. Qed.

Example isSymbolValid_gap :
  run (a ← new_Asset 1 0x4100414104; isSymbolValid a) = Ok false.
Proof. vm_compute. reflexivity. Qed.

(** The receiver and the argument may be one object. *)
Example add_to_itself :
  run (a ← new_Asset 5 UGAS; b ← add a a; v ← getAmount a; mret (b, v))
  = Ok (0%nat, 10).
Proof. vm_compute. reflexivity. Qed.

Example sub_from_itself :
  run (a ← new_Asset 5 UGAS; b ← sub a a; v ← getAmount a; mret (b, v))
  = Ok (0%nat, 0).
Proof. vm_compute. reflexivity. Qed.

(** No arithmetic method looks at the range of its result. *)
Example add_out_of_range :
  run (a ← new_Asset (2 ^ 62 - 1) UGAS; b ← new_Asset 1 UGAS;
       add a b;; isValid a) = Ok false.
Proof. vm_compute. reflexivity. Qed.

Example add_wraps :
  run (a ← new_Asset (2 ^ 64 - 1) UGAS; b ← new_Asset 1 UGAS;
       add a b;; getAmount a) = Ok 0.
Proof. vm_compute. reflexivity. Qed.

Example roundtrip_sample :
  run (a ← new_Asset 10000 UGAS; b ← new_Asset0;
       ds ← serialize a (mkDataStream [] 0);
       deserialize b (mkDataStream (buffer ds) 0);;
       x ← load b; mret (x, buffer ds))
  = Ok (mkAsset 10000 UGAS, [16;39;0;0;0;0;0;0;4;85;71;65;83;0;0;0]).
Proof. vm_compute. reflexivity. Qed.

(** ** Running computations on a store *)

Section Run.
Context {T : Type}.
Implicit Types h : gmap loc T.

Lemma bind_Ok {A B} (c : M T A) (k : A -> M T B) h a h' :
  c h = Ok (a, h') -> (c ≫= k) h = k a h'.
Proof. intros Hc. unfold mbind, M_mbind, M_bind. now rewrite Hc. Qed.

Lemma bind_Abort {A B} (c : M T A) (k : A -> M T B) h msg :
  c h = Abort msg -> (c ≫= k) h = Abort msg.
Proof. intros Hc. unfold mbind, M_mbind, M_bind. now rewrite Hc. Qed.

Lemma ret_Ok {A} (a : A) h : (mret a : M T A) h = Ok (a, h).
Proof. reflexivity. Qed.

Lemma load_Ok h r o : h !! r = Some o -> load r h = Ok (o, h).
Proof. intros Hr. unfold load. now rewrite Hr. Qed.

Lemma store_Ok h r o o' : h !! r = Some o -> store r o' h = Ok (tt, <[r := o']> h).
Proof. intros Hr. unfold store. now rewrite Hr. Qed.

Lemma lift_Ok {A B} (a : A) (k : A -> M T B) h : (lift (Ok a) ≫= k) h = k a h.
Proof. reflexivity. Qed.

Lemma lift_Abort {A B} (k : A -> M T B) msg h :
  (lift (Abort msg) ≫= k) h = Abort msg.
Proof. reflexivity. Qed.

Lemma assert_true {B} (k : unit -> M T B) msg h :
  (lift (ultrain_assert true msg) ≫= k) h = k tt h.
Proof. reflexivity. Qed.

Lemma assert_false {B} (k : unit -> M T B) msg h :
  (lift (ultrain_assert false msg) ≫= k) h = Abort msg.
Proof. reflexivity. Qed.
End Run.

Section AssetRun.
Implicit Types h : gmap loc Asset.

Lemma rd_amount_Ok h r a : h !! r = Some a -> rd_amount r h = Ok (_amount a, h).
Proof. intros Hr. unfold rd_amount. now rewrite (bind_Ok _ _ _ _ _ (load_Ok _ _ _ Hr)). Qed.

Lemma rd_symbol_Ok h r a : h !! r = Some a -> rd_symbol r h = Ok (_symbol a, h).
Proof. intros Hr. unfold rd_symbol. now rewrite (bind_Ok _ _ _ _ _ (load_Ok _ _ _ Hr)). Qed.

Lemma wr_amount_Ok h r a v :
  h !! r = Some a -> wr_amount r v h = Ok (tt, <[r := mkAsset v (_symbol a)]> h).
Proof.
  intros Hr. unfold wr_amount.
  rewrite (bind_Ok _ _ _ _ _ (load_Ok _ _ _ Hr)). now apply store_Ok with a.
Qed.

Lemma wr_symbol_Ok h r a v :
  h !! r = Some a -> wr_symbol r v h = Ok (tt, <[r := mkAsset (_amount a) v]> h).
Proof.
  intros Hr. unfold wr_symbol.
  rewrite (bind_Ok _ _ _ _ _ (load_Ok _ _ _ Hr)). now apply store_Ok with a.
Qed.
End AssetRun.

(** One step of a run: the next field access, on a store where the object
    is known. *)
Ltac run_step :=
  first
    [ erewrite bind_Ok by (apply rd_amount_Ok; eassumption)
    | erewrite bind_Ok by (apply rd_symbol_Ok; eassumption)
    | erewrite bind_Ok by (apply wr_amount_Ok; eassumption)
    | erewrite bind_Ok by (apply wr_symbol_Ok; eassumption)
    | erewrite bind_Ok by (apply load_Ok; eassumption)
    | erewrite bind_Ok by (eapply store_Ok; eassumption)
    | rewrite assert_true
    | rewrite assert_false
    | rewrite lift_Ok
    | rewrite lift_Abort
    | rewrite ret_Ok ].
Ltac run := repeat run_step.

Lemma wrap64_small z : is_u64 z -> wrap64 z = z.
Proof. unfold is_u64, wrap64, wrap. intros. now apply Z.mod_small. Qed.

(** ** Division and [setAmount] *)

(** C7: [divide] by zero aborts with the message "divide by 0"; by any
    other factor it succeeds, stores the integer quotient of the amount by
    the factor, which is the quotient truncated toward zero, and returns
    [this]. An asset of amount 7 divided by 2 has amount 3. *)
Theorem divide_spec (h : gmap loc Asset) (this : loc) (a : Asset) :
  h !! this = Some a ->
  is_u64 (_amount a) ->
  divide this 0 h = Abort "divide by 0"
  /\ (forall f, is_u64 f -> f <> 0 ->
        divide this f h
        = Ok (this, <[this := mkAsset (_amount a / f) (_symbol a)]> h)
        /\ _amount a / f = Z.quot (_amount a) f)
  /\ (forall sy, run (x ← new_Asset 7 sy; y ← divide x 2; getAmount y) = Ok 3).
Proof.
  intros Hthis Ha. split; [reflexivity|]. split.
  - intros f Hf Hne. split.
    + unfold divide. apply Z.eqb_neq in Hne. rewrite Hne. simpl. now run.
    + unfold is_u64 in *. symmetry. apply Z.quot_div_nonneg; lia.
  - intros sy. reflexivity.
Qed.

Lemma divide_spec_witness :
  divide 0%nat 0 store_5_3 = Abort "divide by 0"
  /\ (forall f, is_u64 f -> f <> 0 ->
        divide 0%nat f store_5_3
        = Ok (0%nat, <[0%nat := mkAsset (5 / f) UGAS]> store_5_3)
        /\ 5 / f = Z.quot 5 f)
  /\ (forall sy, run (x ← new_Asset 7 sy; y ← divide x 2; getAmount y) = Ok 3).
Proof.
  apply (divide_spec store_5_3 0%nat (mkAsset 5 UGAS)).
  - reflexivity.
  - unfold is_u64; simpl; lia.
Defined.

(** C8: [setAmount] never fails. With a new amount above [2^62 - 1] it
    leaves the store, hence the amount and the symbol of the asset, as they
    were; with a new amount up to [2^62 - 1] the asset has that amount
    afterwards, and its symbol is unchanged. *)
Theorem setAmount_spec (h : gmap loc Asset) (this : loc) (a : Asset) (newAmount : Z) :
  h !! this = Some a ->
  is_u64 newAmount ->
  (newAmount > 2 ^ 62 - 1 -> setAmount this newAmount h = Ok (tt, h))
  /\ (newAmount <= 2 ^ 62 - 1 ->
      setAmount this newAmount h
      = Ok (tt, <[this := mkAsset newAmount (_symbol a)]> h)
      /\ (setAmount this newAmount;; getAmount this) h
         = Ok (newAmount, <[this := mkAsset newAmount (_symbol a)]> h)).
Proof.
  intros Hthis [Hlo Hhi]. unfold setAmount, isAmountWithinRange.
  change MAX_AMOUNT with (2 ^ 62 - 1). split; intros Hn.
  - replace (newAmount <=? 2 ^ 62 - 1) with false by (symmetry; apply Z.leb_gt; lia).
    now rewrite andb_false_r.
  - replace (0 <=? newAmount) with true by (symmetry; apply Z.leb_le; lia).
    replace (newAmount <=? 2 ^ 62 - 1) with true by (symmetry; apply Z.leb_le; lia).
    simpl. split.
    + now apply wr_amount_Ok.
    + run. unfold getAmount.
      apply (rd_amount_Ok _ _ (mkAsset newAmount (_symbol a))), lookup_insert_eq.
Qed.

Lemma setAmount_spec_witness :
  (2 ^ 62 > 2 ^ 62 - 1 -> setAmount 0%nat (2 ^ 62) store_5_3 = Ok (tt, store_5_3))
  /\ (2 ^ 62 <= 2 ^ 62 - 1 ->
      setAmount 0%nat (2 ^ 62) store_5_3
      = Ok (tt, <[0%nat := mkAsset (2 ^ 62) (_symbol (mkAsset 5 UGAS))]> store_5_3)
      /\ (setAmount 0%nat (2 ^ 62);; getAmount 0%nat) store_5_3
         = Ok (2 ^ 62, <[0%nat := mkAsset (2 ^ 62) (_symbol (mkAsset 5 UGAS))]> store_5_3)).
Proof.
  apply (setAmount_spec store_5_3 0%nat (mkAsset 5 UGAS) (2 ^ 62)).
  - reflexivity.
  - unfold is_u64. lia.
Defined.

(** ** Arithmetic and comparison of two assets *)

Section TwoAssets.
Variables (h : gmap loc Asset) (this rhs : loc) (a b : Asset).
Hypothesis Hthis : h !! this = Some a.
Hypothesis Hrhs : h !! rhs = Some b.

Lemma add_differ : _symbol b <> _symbol a -> add this rhs h = Abort add_mismatch.
Proof.
  intros Hne. unfold add. run.
  apply Z.eqb_neq in Hne. rewrite Hne. now run.
Qed.

Lemma add_same :
  _symbol b = _symbol a ->
  add this rhs h
  = Ok (this, <[this := mkAsset (wrap64 (_amount a + _amount b)) (_symbol a)]> h).
Proof.
  intros He. unfold add. run.
  apply Z.eqb_eq in He. rewrite He. now run.
Qed.

Lemma sub_differ : _symbol b <> _symbol a -> sub this rhs h = Abort sub_mismatch.
Proof.
  intros Hne. unfold sub. run.
  apply Z.eqb_neq in Hne. rewrite Hne. now run.
Qed.

Lemma sub_less :
  _symbol b = _symbol a -> _amount a < _amount b ->
  sub this rhs h = Abort sub_insufficient.
Proof.
  intros He Hlt. unfold sub. run.
  apply Z.eqb_eq in He. rewrite He. run.
  replace (_amount a >=? _amount b) with false by (symmetry; lia).
  now run.
Qed.

Lemma sub_enough :
  _symbol b = _symbol a -> _amount b <= _amount a ->
  sub this rhs h
  = Ok (this, <[this := mkAsset (wrap64 (_amount a - _amount b)) (_symbol a)]> h).
Proof.
  intros He Hle. unfold sub. run.
  apply Z.eqb_eq in He. rewrite He. run.
  replace (_amount a >=? _amount b) with true by (symmetry; lia).
  now run.
Qed.

Lemma compare_differ :
  _symbol a <> _symbol b ->
  gt this rhs h = Ok (false, h) /\ gte this rhs h = Ok (false, h)
  /\ lt this rhs h = Ok (false, h) /\ lte this rhs h = Ok (false, h)
  /\ eq this rhs h = Ok (false, h).
Proof.
  intros Hne. apply Z.eqb_neq in Hne.
  unfold gt, gte, lt, lte, eq. run. now rewrite Hne.
Qed.

Lemma compare_same :
  _symbol a = _symbol b ->
  gt this rhs h = Ok (_amount a >? _amount b, h)
  /\ gte this rhs h = Ok (_amount a >=? _amount b, h)
  /\ lt this rhs h = Ok (_amount a <? _amount b, h)
  /\ lte this rhs h = Ok (_amount a <=? _amount b, h)
  /\ eq this rhs h = Ok (_amount a =? _amount b, h).
Proof.
  intros He. apply Z.eqb_eq in He.
  unfold gt, gte, lt, lte, eq. run. rewrite He. now run.
Qed.
End TwoAssets.

(** C6: [add] and [sub] abort with their symbol-mismatch message exactly
    when the symbol of [rhs] differs from the symbol of [this]; [sub] aborts
    with its insufficient-amount message exactly when the symbols agree and
    the amount of [this] is below the amount of [rhs]. Otherwise [add] stores
    the sum of the amounts (reduced modulo [2^64], which changes nothing as
    long as the sum fits 64 bits) and [sub] stores their difference, in
    [this], and each returns [this]. [this] and [rhs] may be one object. *)
Theorem add_sub_spec (h : gmap loc Asset) (this rhs : loc) (a b : Asset) :
  h !! this = Some a ->
  h !! rhs = Some b ->
  is_u64 (_amount a) ->
  is_u64 (_amount b) ->
  (add this rhs h = Abort add_mismatch <-> _symbol b <> _symbol a)
  /\ (sub this rhs h = Abort sub_mismatch <-> _symbol b <> _symbol a)
  /\ (sub this rhs h = Abort sub_insufficient
      <-> _symbol b = _symbol a /\ _amount a < _amount b)
  /\ (_symbol b = _symbol a ->
      add this rhs h
      = Ok (this, <[this := mkAsset ((_amount a + _amount b) mod 2 ^ 64) (_symbol a)]> h)
      /\ (_amount a + _amount b < 2 ^ 64 ->
          add this rhs h
          = Ok (this, <[this := mkAsset (_amount a + _amount b) (_symbol a)]> h)))
  /\ (_symbol b = _symbol a -> _amount b <= _amount a ->
      sub this rhs h
      = Ok (this, <[this := mkAsset (_amount a - _amount b) (_symbol a)]> h)).
Proof.
  intros Hthis Hrhs Ha Hb.
  pose proof (add_differ h this rhs a b Hthis Hrhs) as Had.
  pose proof (add_same h this rhs a b Hthis Hrhs) as Has.
  pose proof (sub_differ h this rhs a b Hthis Hrhs) as Hsd.
  pose proof (sub_less h this rhs a b Hthis Hrhs) as Hsl.
  pose proof (sub_enough h this rhs a b Hthis Hrhs) as Hse.
  assert (Hwrap : _amount b <= _amount a ->
                  wrap64 (_amount a - _amount b) = _amount a - _amount b).
  { intros Hle. apply wrap64_small. unfold is_u64 in *. lia. }
  destruct (Z.eq_dec (_symbol b) (_symbol a)) as [He | Hne];
    [destruct (Z_lt_le_dec (_amount a) (_amount b)) as [Hlt | Hle] |].
  - rewrite (Has He), (Hsl He Hlt).
    repeat split; try congruence; try discriminate; try lia.
    intros Hsum. rewrite wrap64_small; [reflexivity | unfold is_u64 in *; lia].
  - rewrite (Has He), (Hse He Hle), (Hwrap Hle).
    repeat split; try congruence; try discriminate; try lia.
    intros Hsum. rewrite wrap64_small; [reflexivity | unfold is_u64 in *; lia].
  - rewrite (Had Hne), (Hsd Hne).
    repeat split; try congruence; try discriminate; intuition congruence.
Qed.

Lemma add_sub_spec_witness :
  (add 0%nat 1%nat store_5_3 = Abort add_mismatch <-> UGAS <> UGAS)
  /\ (sub 0%nat 1%nat store_5_3 = Abort sub_mismatch <-> UGAS <> UGAS)
  /\ (sub 0%nat 1%nat store_5_3 = Abort sub_insufficient <-> UGAS = UGAS /\ 5 < 3)
  /\ (UGAS = UGAS ->
      add 0%nat 1%nat store_5_3
      = Ok (0%nat, <[0%nat := mkAsset ((5 + 3) mod 2 ^ 64) UGAS]> store_5_3)
      /\ (5 + 3 < 2 ^ 64 ->
          add 0%nat 1%nat store_5_3
          = Ok (0%nat, <[0%nat := mkAsset (5 + 3) UGAS]> store_5_3)))
  /\ (UGAS = UGAS -> 3 <= 5 ->
      sub 0%nat 1%nat store_5_3
      = Ok (0%nat, <[0%nat := mkAsset (5 - 3) UGAS]> store_5_3)).
Proof.
  apply (add_sub_spec store_5_3 0%nat 1%nat (mkAsset 5 UGAS) (mkAsset 3 UGAS)).
  - reflexivity.
  - reflexivity.
  - unfold is_u64; simpl; lia.
  - unfold is_u64; simpl; lia.
Defined.

(** C3, as stated, fails: on "0.0005 UGAS" and "3 XRT", two assets with
    different symbols, none of [gt], [gte], [lt] and [lte] aborts; each
    returns [false]. *)
Lemma compare_mismatch_returns_false :
  UGAS <> XRT0
  /\ gt 0%nat 1%nat store_ugas_xrt = Ok (false, store_ugas_xrt)
  /\ gte 0%nat 1%nat store_ugas_xrt = Ok (false, store_ugas_xrt)
  /\ lt 0%nat 1%nat store_ugas_xrt = Ok (false, store_ugas_xrt)
  /\ lte 0%nat 1%nat store_ugas_xrt = Ok (false, store_ugas_xrt).
Proof. repeat split; discriminate || reflexivity. Qed.

(** C3, amended: on two assets with different symbols [add] and [sub] abort
    with their symbol-mismatch message, while the comparisons [gt], [gte],
    [lt], [lte] and [eq] return [false] and leave the store as it is. *)
Theorem mismatch_spec (h : gmap loc Asset) (this rhs : loc) (a b : Asset) :
  h !! this = Some a ->
  h !! rhs = Some b ->
  _symbol a <> _symbol b ->
  add this rhs h = Abort add_mismatch
  /\ sub this rhs h = Abort sub_mismatch
  /\ gt this rhs h = Ok (false, h)
  /\ gte this rhs h = Ok (false, h)
  /\ lt this rhs h = Ok (false, h)
  /\ lte this rhs h = Ok (false, h)
  /\ eq this rhs h = Ok (false, h).
Proof.
  intros Hthis Hrhs Hne.
  split; [apply (add_differ h this rhs a b); auto|].
  split; [apply (sub_differ h this rhs a b); auto|].
  now apply (compare_differ h this rhs a b).
Qed.

Lemma mismatch_spec_witness :
  add 0%nat 1%nat store_ugas_xrt = Abort add_mismatch
  /\ sub 0%nat 1%nat store_ugas_xrt = Abort sub_mismatch
  /\ gt 0%nat 1%nat store_ugas_xrt = Ok (false, store_ugas_xrt)
  /\ gte 0%nat 1%nat store_ugas_xrt = Ok (false, store_ugas_xrt)
  /\ lt 0%nat 1%nat store_ugas_xrt = Ok (false, store_ugas_xrt)
  /\ lte 0%nat 1%nat store_ugas_xrt = Ok (false, store_ugas_xrt)
  /\ eq 0%nat 1%nat store_ugas_xrt = Ok (false, store_ugas_xrt).
Proof.
  apply (mismatch_spec store_ugas_xrt 0%nat 1%nat (mkAsset 5 UGAS) (mkAsset 3 XRT0)).
  - reflexivity.
  - reflexivity.
  - simpl. discriminate.
Defined.

(** ** Multiplication *)

(** C1, as stated, fails: doubling the largest amount [2^62 - 1] raises no
    error and leaves [2^63 - 2], an amount out of range, in the asset. *)
Lemma multi_overflow_unchecked :
  multi 0%nat 2 store_max = Ok (0%nat, <[0%nat := mkAsset (2 ^ 63 - 2) UGAS]> ∅)
  /\ (2 ^ 62 - 1) * 2 > 2 ^ 62 - 1
  /\ isAmountWithinRange (2 ^ 63 - 2) = false.
Proof. repeat split. Qed.

(** C1, amended: [multi] never fails; it stores the product of the amount
    and the factor modulo [2^64] in [this] and returns [this]. When the
    exact product is at most [2^62 - 1] the stored amount is that product
    and it is within range. *)
Theorem multi_spec (h : gmap loc Asset) (this : loc) (a : Asset) (f : Z) :
  h !! this = Some a ->
  is_u64 (_amount a) ->
  is_u64 f ->
  multi this f h
  = Ok (this, <[this := mkAsset ((_amount a * f) mod 2 ^ 64) (_symbol a)]> h)
  /\ (_amount a * f <= 2 ^ 62 - 1 ->
      multi this f h = Ok (this, <[this := mkAsset (_amount a * f) (_symbol a)]> h)
      /\ isAmountWithinRange (_amount a * f) = true).
Proof.
  intros Hthis Ha Hf.
  assert (Hm : multi this f h
               = Ok (this, <[this := mkAsset (wrap64 (_amount a * f)) (_symbol a)]> h)).
  { unfold multi. now run. }
  split; [exact Hm|]. intros Hle.
  assert (0 <= _amount a * f) by (unfold is_u64 in *; nia).
  rewrite Hm, wrap64_small by (unfold is_u64; lia). split; [reflexivity|].
  unfold isAmountWithinRange. change MAX_AMOUNT with (2 ^ 62 - 1).
  apply andb_true_intro. split; apply Z.leb_le; lia.
Qed.

Lemma multi_spec_witness :
  multi 0%nat 2 store_5_3
  = Ok (0%nat, <[0%nat := mkAsset ((5 * 2) mod 2 ^ 64) UGAS]> store_5_3)
  /\ (5 * 2 <= 2 ^ 62 - 1 ->
      multi 0%nat 2 store_5_3 = Ok (0%nat, <[0%nat := mkAsset (5 * 2) UGAS]> store_5_3)
      /\ isAmountWithinRange (5 * 2) = true).
Proof.
  apply (multi_spec store_5_3 0%nat (mkAsset 5 UGAS) 2).
  - reflexivity.
  - unfold is_u64; simpl; lia.
  - unfold is_u64; lia.
Defined.

(** ** Cloning *)

Lemma clone_Ok (h : gmap loc Asset) (this : loc) (a : Asset) :
  h !! this = Some a ->
  clone this h = Ok (fresh (dom h), <[fresh (dom h) := a]> h).
Proof.
  intros Hthis. unfold clone, new_Asset0, new_Asset.
  assert (Hfresh : fresh (dom h) <> this).
  { intros Heq. apply (is_fresh (dom h)). rewrite Heq. apply elem_of_dom. eauto. }
  erewrite bind_Ok by reflexivity.
  set (l := fresh (dom h)) in *.
  set (h1 := <[l := mkAsset 0 _]> h).
  assert (H1 : h1 !! this = Some a) by (unfold h1; now rewrite lookup_insert_ne).
  assert (H1l : h1 !! l = Some (mkAsset 0 0x5341475504)) by apply lookup_insert_eq.
  run.
  set (h2 := <[l := mkAsset (_amount a) _]> h1).
  assert (H2 : h2 !! this = Some a) by (unfold h2; now rewrite lookup_insert_ne).
  assert (H2l : h2 !! l = Some (mkAsset (_amount a) 0x5341475504))
    by apply lookup_insert_eq.
  run. unfold h2, h1. simpl. rewrite !insert_insert_eq. now destruct a.
Qed.

(** C5: for two assets [a] and [b] with the same symbol and
    [a.amount + b.amount <= 2^62 - 1], the chain [a.clone().add(b).sub(b)]
    succeeds and its result is equal to [a] by [eq]; [a] itself is left as
    it was, also when [b] is [a]. *)
Theorem clone_add_sub_inverse (h : gmap loc Asset) (ra rb : loc) (a b : Asset) :
  h !! ra = Some a ->
  h !! rb = Some b ->
  _symbol a = _symbol b ->
  is_u64 (_amount a) ->
  is_u64 (_amount b) ->
  _amount a + _amount b <= 2 ^ 62 - 1 ->
  (c ← clone ra; c1 ← add c rb; c2 ← sub c1 rb; eq c2 ra) h
  = Ok (true, <[fresh (dom h) := a]> h)
  /\ <[fresh (dom h) := a]> h !! ra = Some a.
Proof.
  intros Hra Hrb Hsym Ha Hb Hsum.
  assert (Hfa : fresh (dom h) <> ra).
  { intros Heq. apply (is_fresh (dom h)). rewrite Heq. apply elem_of_dom. eauto. }
  assert (Hfb : fresh (dom h) <> rb).
  { intros Heq. apply (is_fresh (dom h)). rewrite Heq. apply elem_of_dom. eauto. }
  erewrite bind_Ok by (apply clone_Ok; eassumption).
  set (l := fresh (dom h)) in *.
  set (h1 := <[l := a]> h).
  assert (H1l : h1 !! l = Some a) by apply lookup_insert_eq.
  assert (H1a : h1 !! ra = Some a) by (unfold h1; now rewrite lookup_insert_ne).
  assert (H1b : h1 !! rb = Some b) by (unfold h1; now rewrite lookup_insert_ne).
  split; [|exact H1a].
  erewrite bind_Ok by (apply (add_same h1 l rb a b); auto).
  rewrite wrap64_small by (unfold is_u64 in *; lia).
  set (s := mkAsset (_amount a + _amount b) (_symbol a)).
  set (h2 := <[l := s]> h1).
  assert (H2l : h2 !! l = Some s) by apply lookup_insert_eq.
  assert (H2b : h2 !! rb = Some b) by (unfold h2; now rewrite lookup_insert_ne).
  erewrite bind_Ok
    by (apply (sub_enough h2 l rb s b); simpl; auto; unfold is_u64 in *; lia).
  simpl. replace (_amount a + _amount b - _amount b) with (_amount a) by lia.
  rewrite wrap64_small by assumption.
  unfold h2, h1. rewrite !insert_insert_eq.
  replace (mkAsset (_amount a) (_symbol a)) with a by now destruct a.
  fold h1.
  destruct (compare_same h1 l ra a a H1l H1a eq_refl) as (_ & _ & _ & _ & Heq).
  rewrite Heq. now rewrite Z.eqb_refl.
Qed.

Lemma clone_add_sub_inverse_witness :
  (c ← clone 0%nat; c1 ← add c 1%nat; c2 ← sub c1 1%nat; eq c2 0%nat) store_5_3
  = Ok (true, <[fresh (dom store_5_3) := mkAsset 5 UGAS]> store_5_3)
  /\ <[fresh (dom store_5_3) := mkAsset 5 UGAS]> store_5_3 !! 0%nat
     = Some (mkAsset 5 UGAS).
Proof.
  apply (clone_add_sub_inverse store_5_3 0%nat 1%nat (mkAsset 5 UGAS) (mkAsset 3 UGAS)).
  - reflexivity.
  - reflexivity.
  - reflexivity.
  - unfold is_u64; simpl; lia.
  - unfold is_u64; simpl; lia.
  - simpl; lia.
Defined.

(** ** Serialisation *)

Lemma length_le_bytes n v : length (le_bytes n v) = n.
Proof. revert v. induction n as [|n IH]; intros v; simpl; [reflexivity | now rewrite IH]. Qed.

Lemma le_value_le_bytes n v :
  0 <= v -> le_value (le_bytes n v) = v mod 256 ^ Z.of_nat n.
Proof.
  revert v. induction n as [|n IH]; intros v Hv.
  - simpl. now rewrite Z.mod_1_r.
  - cbn [le_bytes le_value]. rewrite IH by (apply Z.div_pos; lia).
    rewrite Nat2Z.inj_succ, Z.pow_succ_r by lia.
    rewrite Z.rem_mul_r by lia. lia.
Qed.

Lemma le_value_le_bytes_u64 v : is_u64 v -> le_value (le_bytes 8 v) = v.
Proof.
  intros Hv. rewrite le_value_le_bytes by (unfold is_u64 in Hv; lia).
  apply Z.mod_small. exact Hv.
Qed.

Section Streams.
Variable ds : DataStream.
Hypothesis Hpos : (pos ds <= length (buffer ds))%nat.

Lemma write_u64_pos v : (pos (write_u64 ds v) <= length (buffer (write_u64 ds v)))%nat.
Proof.
  unfold write_u64. cbn [buffer pos].
  rewrite !length_app, length_take, length_le_bytes. lia.
Qed.

Lemma read_write_u64 v :
  is_u64 v ->
  read_u64 (rewind (write_u64 ds v) (pos ds)) = Ok (v, write_u64 ds v).
Proof.
  intros Hv. unfold read_u64, rewind, write_u64. cbn [buffer pos].
  rewrite !length_app, length_take, length_le_bytes.
  destruct (decide _) as [_|Hn]; [|lia].
  rewrite drop_app_length' by (rewrite length_take; lia).
  rewrite take_app_length' by (symmetry; apply length_le_bytes).
  now rewrite le_value_le_bytes_u64.
Qed.

(** A later write leaves the bytes in front of its cursor alone. *)
Lemma read_write_write_u64 v w :
  is_u64 v ->
  read_u64 (rewind (write_u64 (write_u64 ds v) w) (pos ds))
  = Ok (v, rewind (write_u64 (write_u64 ds v) w) (pos ds + 8)).
Proof.
  intros Hv. unfold read_u64, rewind, write_u64. cbn [buffer pos].
  rewrite !length_app, !length_take, !length_app, !length_take, !length_le_bytes.
  destruct (decide _) as [_|Hn]; [|lia].
  rewrite take_app_ge by (rewrite length_take; lia).
  rewrite length_take, Nat.min_l by lia.
  replace (pos ds + 8 - pos ds)%nat with 8%nat by lia.
  rewrite take_app_length' by (symmetry; apply length_le_bytes).
  rewrite <- !app_assoc.
  rewrite drop_app_length' by (rewrite length_take; lia).
  rewrite take_app_length' by (symmetry; apply length_le_bytes).
  now rewrite le_value_le_bytes_u64.
Qed.

Lemma write_write_buffer v w :
  buffer (write_u64 (write_u64 ds v) w)
  = take (pos ds) (buffer ds) ++ le_bytes 8 v ++ le_bytes 8 w
    ++ drop (pos ds + 16) (buffer ds).
Proof.
  unfold write_u64. cbn [buffer pos].
  rewrite take_app_ge by (rewrite length_take; lia).
  rewrite length_take, Nat.min_l by lia.
  replace (pos ds + 8 - pos ds)%nat with 8%nat by lia.
  rewrite take_app_length' by (symmetry; apply length_le_bytes).
  rewrite <- !app_assoc. do 3 f_equal.
  rewrite drop_app_ge by (rewrite length_take; lia).
  rewrite length_take, Nat.min_l by lia.
  rewrite drop_app_ge by (rewrite length_le_bytes; lia).
  rewrite length_le_bytes, drop_drop. f_equal. lia.
Qed.
End Streams.

Lemma Asset_roundtrip (h : gmap loc Asset) (x y : loc) (a b : Asset) (ds : DataStream) :
  h !! x = Some a ->
  h !! y = Some b ->
  is_u64 (_amount a) ->
  is_u64 (_symbol a) ->
  (pos ds <= length (buffer ds))%nat ->
  let out := write_u64 (write_u64 ds (_amount a)) (_symbol a) in
  serialize x ds h = Ok (out, h)
  /\ deserialize y (rewind out (pos ds)) h = Ok (out, <[y := a]> h).
Proof.
  intros Hx Hy Ham Hsy Hpos out. split.
  - unfold serialize, Asset_Serializable, Asset_serialize. now run.
  - unfold deserialize, Asset_Serializable, Asset_deserialize, out.
    rewrite read_write_write_u64, lift_Ok by assumption. run.
    set (h1 := <[y := _]> h).
    assert (H1 : h1 !! y = Some (mkAsset (_amount a) (_symbol b)))
      by apply lookup_insert_eq.
    change (rewind (write_u64 (write_u64 ds (_amount a)) (_symbol a)) (pos ds + 8))
      with (rewind (write_u64 (write_u64 ds (_amount a)) (_symbol a))
              (pos (write_u64 ds (_amount a)))).
    rewrite read_write_u64, lift_Ok by (auto using write_u64_pos). run.
    unfold h1. rewrite insert_insert_eq. now destruct a.
Qed.

Lemma PermissionLevel_roundtrip (h : gmap loc PermissionLevel) (x y : loc)
    (p q : PermissionLevel) (ds : DataStream) :
  h !! x = Some p ->
  h !! y = Some q ->
  is_u64 (actor p) ->
  is_u64 (permission p) ->
  (pos ds <= length (buffer ds))%nat ->
  let out := write_u64 (write_u64 ds (actor p)) (permission p) in
  serialize x ds h = Ok (out, h)
  /\ deserialize y (rewind out (pos ds)) h = Ok (out, <[y := p]> h).
Proof.
  intros Hx Hy Hac Hpe Hpos out. split.
  - unfold serialize, PermissionLevel_Serializable, PermissionLevel_serialize. now run.
  - unfold deserialize, PermissionLevel_Serializable, PermissionLevel_deserialize, out.
    rewrite read_write_write_u64, lift_Ok by assumption. run.
    set (h1 := <[y := _]> h).
    assert (H1 : h1 !! y = Some (mkPermissionLevel (actor p) (permission q)))
      by apply lookup_insert_eq.
    change (rewind (write_u64 (write_u64 ds (actor p)) (permission p)) (pos ds + 8))
      with (rewind (write_u64 (write_u64 ds (actor p)) (permission p))
              (pos (write_u64 ds (actor p)))).
    rewrite read_write_u64, lift_Ok by (auto using write_u64_pos). run.
    unfold h1. rewrite insert_insert_eq. now destruct p.
Qed.

(** C4: what [serialize] writes, [deserialize] reads back. For an [Asset]
    the sixteen bytes written at the cursor are the amount and then the
    symbol, eight little-endian bytes each; reading them from the same
    cursor into any asset makes it equal to the serialised one. The same
    holds for a [PermissionLevel], with the actor and then the permission:
    a record of sixteen bytes with no length in front. *)
Theorem serialize_deserialize_roundtrip :
  (forall (h : gmap loc Asset) (x y : loc) (a b : Asset) (ds : DataStream),
      h !! x = Some a -> h !! y = Some b ->
      is_u64 (_amount a) -> is_u64 (_symbol a) ->
      (pos ds <= length (buffer ds))%nat ->
      exists out,
        serialize x ds h = Ok (out, h)
        /\ buffer out = take (pos ds) (buffer ds)
                        ++ le_bytes 8 (_amount a) ++ le_bytes 8 (_symbol a)
                        ++ drop (pos ds + 16) (buffer ds)
        /\ pos out = (pos ds + 16)%nat
        /\ length (le_bytes 8 (_amount a) ++ le_bytes 8 (_symbol a)) = 16%nat
        /\ deserialize y (rewind out (pos ds)) h = Ok (out, <[y := a]> h))
  /\ (forall (h : gmap loc PermissionLevel) (x y : loc) (p q : PermissionLevel)
        (ds : DataStream),
      h !! x = Some p -> h !! y = Some q ->
      is_u64 (actor p) -> is_u64 (permission p) ->
      (pos ds <= length (buffer ds))%nat ->
      exists out,
        serialize x ds h = Ok (out, h)
        /\ buffer out = take (pos ds) (buffer ds)
                        ++ le_bytes 8 (actor p) ++ le_bytes 8 (permission p)
                        ++ drop (pos ds + 16) (buffer ds)
        /\ pos out = (pos ds + 16)%nat
        /\ length (le_bytes 8 (actor p) ++ le_bytes 8 (permission p)) = 16%nat
        /\ deserialize y (rewind out (pos ds)) h = Ok (out, <[y := p]> h)).
Proof.
  split.
  - intros h x y a b ds Hx Hy Ham Hsy Hpos.
    destruct (Asset_roundtrip h x y a b ds Hx Hy Ham Hsy Hpos) as [Hs Hd].
    eexists. split; [exact Hs|]. split; [now apply write_write_buffer|].
    split; [cbn [write_u64 pos]; lia |].
    split; [now rewrite length_app, !length_le_bytes | exact Hd].
  - intros h x y p q ds Hx Hy Hac Hpe Hpos.
    destruct (PermissionLevel_roundtrip h x y p q ds Hx Hy Hac Hpe Hpos) as [Hs Hd].
    eexists. split; [exact Hs|]. split; [now apply write_write_buffer|].
    split; [cbn [write_u64 pos]; lia |].
    split; [now rewrite length_app, !length_le_bytes | exact Hd].
Qed.

Lemma serialize_deserialize_roundtrip_witness :
  (exists out,
      serialize 0%nat (mkDataStream [] 0) store_5_3 = Ok (out, store_5_3)
      /\ buffer out = take 0 [] ++ le_bytes 8 5 ++ le_bytes 8 UGAS ++ drop (0 + 16) []
      /\ pos out = (0 + 16)%nat
      /\ length (le_bytes 8 5 ++ le_bytes 8 UGAS) = 16%nat
      /\ deserialize 1%nat (rewind out 0) store_5_3
         = Ok (out, <[1%nat := mkAsset 5 UGAS]> store_5_3))
  /\ (exists out,
        serialize 0%nat (mkDataStream [] 0) store_tom = Ok (out, store_tom)
        /\ buffer out = take 0 [] ++ le_bytes 8 (actor tom_active)
                        ++ le_bytes 8 (permission tom_active) ++ drop (0 + 16) []
        /\ pos out = (0 + 16)%nat
        /\ length (le_bytes 8 (actor tom_active) ++ le_bytes 8 (permission tom_active))
           = 16%nat
        /\ deserialize 1%nat (rewind out 0) store_tom
           = Ok (out, <[1%nat := tom_active]> store_tom)).
Proof.
  split.
  - apply (proj1 serialize_deserialize_roundtrip store_5_3 0%nat 1%nat
             (mkAsset 5 UGAS) (mkAsset 3 UGAS) (mkDataStream [] 0)).
    + reflexivity.
    + reflexivity.
    + unfold is_u64; simpl; lia.
    + unfold is_u64, UGAS; simpl; lia.
    + simpl; lia.
  - apply (proj2 serialize_deserialize_roundtrip store_tom 0%nat 1%nat
             tom_active (mkPermissionLevel 0 0) (mkDataStream [] 0)).
    + reflexivity.
    + reflexivity.
    + unfold is_u64; simpl; lia.
    + unfold is_u64; simpl; lia.
    + simpl; lia.
Defined.

(** ** Bytes of a symbol *)

Lemma land_0xff x : Z.land x 0xff = x mod 256.
Proof. change 0xff with (Z.ones 8). now rewrite Z.land_ones. Qed.

Lemma shr64_8 x : shr64 x 8 = x / 256.
Proof. unfold shr64. change (8 mod 64) with 8. now rewrite Z.shiftr_div_pow2. Qed.

Lemma lor_disjoint x y k :
  0 <= k -> 0 <= x < 2 ^ k -> Z.lor x (y * 2 ^ k) = x + y * 2 ^ k.
Proof.
  intros Hk Hx.
  assert (Hland : Z.land x (y * 2 ^ k) = 0).
  { apply Z.bits_inj'. intros n Hn. rewrite Z.land_spec, Z.bits_0.
    destruct (Z_lt_le_dec n k) as [Hlt | Hge].
    - rewrite Z.mul_pow2_bits_low by assumption. apply andb_false_r.
    - rewrite <- (Z.mod_small x (2 ^ k)) by assumption.
      rewrite Z.mod_pow2_bits_high by lia. reflexivity. }
  rewrite <- Z.lxor_lor by assumption. symmetry. now apply Z.add_nocarry_lxor.
Qed.

Lemma pack_bounds cs :
  Forall (fun c => 0 <= c < 256) cs -> 0 <= pack cs < 256 ^ Z.of_nat (length cs).
Proof.
  induction 1 as [|c cs Hc _ IH]; [simpl; lia|].
  cbn [pack length]. rewrite Nat2Z.inj_succ, Z.pow_succ_r by lia. lia.
Qed.

Lemma pack_snoc cs c : pack (cs ++ [c]) = pack cs + c * 256 ^ Z.of_nat (length cs).
Proof.
  induction cs as [|d cs IH]; [simpl; lia|].
  cbn [app pack length]. rewrite IH, Nat2Z.inj_succ, Z.pow_succ_r by lia. lia.
Qed.

Lemma upper_byte cs : Forall is_upper cs -> Forall (fun c => 0 <= c < 256) cs.
Proof.
  intros H. eapply Forall_impl; [exact H|].
  unfold is_upper, CHAR_A, CHAR_Z. intros; lia.
Qed.

Lemma land_pack_cons p cs : 0 <= p < 256 -> Z.land (p + 256 * pack cs) 0xff = p.
Proof.
  intros Hp. rewrite land_0xff.
  replace (p + 256 * pack cs) with (p + pack cs * 256) by lia.
  rewrite Z.mod_add by lia.
  now apply Z.mod_small.
Qed.

Lemma shr_pack_cons p cs : 0 <= p < 256 -> shr64 (p + 256 * pack cs) 8 = pack cs.
Proof.
  intros Hp. rewrite shr64_8.
  replace (p + 256 * pack cs) with (p + pack cs * 256) by lia.
  rewrite Z.div_add by lia.
  rewrite Z.div_small by assumption. lia.
Qed.

Lemma wrap8_byte c : 0 <= c < 256 -> wrap8 c = c.
Proof. intros. unfold wrap8, wrap. now apply Z.mod_small. Qed.

Lemma shl64_char c i :
  0 <= c < 128 -> 0 <= i <= 6 -> shl64 c (8 * (i + 1)) = c * 256 ^ (i + 1).
Proof.
  intros Hc Hi. unfold shl64, wrap64, wrap.
  rewrite (Z.mod_small (8 * (i + 1))) by lia.
  rewrite Z.shiftl_mul_pow2, Z.pow_mul_r by lia. change (2 ^ 8) with 256.
  apply Z.mod_small.
  assert (0 < 256 ^ (i + 1) <= 256 ^ 7).
  { split; [apply Z.pow_pos_nonneg; lia | apply Z.pow_le_mono_r; lia]. }
  change (256 ^ 7) with 72057594037927936 in *.
  change (2 ^ 64) with 18446744073709551616. nia.
Qed.

Lemma charCodeAt_lookup (str : jsstring) (n : nat) c :
  str !! n = Some c -> charCodeAt str (Z.of_nat n) = c.
Proof.
  intros Hc. unfold charCodeAt.
  replace (Z.of_nat n <? 0) with false by (symmetry; apply Z.ltb_ge; lia).
  now rewrite Nat2Z.id, Hc.
Qed.

Lemma StringToSymbol_body_upper (str : jsstring) (n : nat) c :
  str !! n = Some c -> is_upper c -> (n < 7)%nat ->
  Forall (fun c => 0 <= c < 256) (take n str) ->
  StringToSymbol_body str (256 * pack (take n str), []) (Z.of_nat n)
  = (256 * pack (take (S n) str), []).
Proof.
  intros Hc Hup Hn Hbytes. unfold StringToSymbol_body.
  rewrite (charCodeAt_lookup _ _ _ Hc).
  unfold is_upper, CHAR_A, CHAR_Z in *.
  rewrite land_0xff, Z.mod_small, wrap8_byte by lia.
  replace (c <? 65) with false by (symmetry; apply Z.ltb_ge; lia).
  replace (c >? 90) with false by (symmetry; lia).
  cbn [orb]. f_equal.
  rewrite shl64_char by lia.
  assert (Hlen : length (take n str) = n).
  { apply length_take_le. apply lookup_lt_Some in Hc. lia. }
  pose proof (pack_bounds _ Hbytes) as Hb. rewrite Hlen in Hb.
  rewrite (take_S_r _ _ _ Hc), pack_snoc, Hlen.
  replace (256 ^ (Z.of_nat n + 1)) with (256 * 256 ^ Z.of_nat n)
    by (rewrite Z.pow_add_r by lia; lia).
  replace (c * (256 * 256 ^ Z.of_nat n)) with (c * 2 ^ (8 * (Z.of_nat n + 1))).
  2:{ rewrite Z.mul_add_distr_l, Z.pow_add_r, Z.pow_mul_r by lia.
      change (2 ^ 8) with 256. change (2 ^ (8 * 1)) with 256. lia. }
  rewrite lor_disjoint.
  - rewrite Z.mul_add_distr_l, Z.pow_add_r, Z.pow_mul_r by lia.
    change (2 ^ 8) with 256. change (2 ^ (8 * 1)) with 256. lia.
  - lia.
  - rewrite Z.mul_add_distr_l, Z.pow_add_r, Z.pow_mul_r by lia.
    change (2 ^ 8) with 256. change (2 ^ (8 * 1)) with 256. lia.
Qed.

Lemma StringToSymbol_fold_upper (str : jsstring) (n : nat) :
  Forall is_upper str -> (n <= length str)%nat -> (n <= 7)%nat ->
  fold_left (StringToSymbol_body str) (seqZ 0 (Z.of_nat n)) (0, [])
  = (256 * pack (take n str), []).
Proof.
  intros Hup. induction n as [|n IH]; intros Hlen Hn; [reflexivity|].
  rewrite seqZ_S, fold_left_app, IH by lia. cbn [fold_left]. rewrite Z.add_0_l.
  destruct (lookup_lt_is_Some_2 str n) as [c Hc]; [lia|].
  apply StringToSymbol_body_upper with c; [exact Hc| |lia|].
  - rewrite Forall_lookup in Hup. now apply (Hup n).
  - apply upper_byte. now apply Forall_take.
Qed.

(** The symbol of a name of at most seven capital letters. *)
Lemma StringToSymbol_upper (precision : Z) (str : jsstring) :
  is_u8 precision -> Forall is_upper str -> (length str <= 7)%nat ->
  StringToSymbol precision str = Ok (precision + 256 * pack str).
Proof.
  intros Hp Hup Hlen. unfold StringToSymbol, StringToSymbol_logged.
  rewrite wrap8_byte by lia.
  replace (Z.of_nat (length str) <=? 7) with true by (symmetry; apply Z.leb_le; lia).
  cbn [ultrain_assert]. unfold mbind, result_bind, rbind, mret, result_ret.
  rewrite StringToSymbol_fold_upper, firstn_all by (auto; lia).
  cbn [fst]. f_equal.
  rewrite Z.lor_comm.
  replace (256 * pack str) with (pack str * 2 ^ 8) by (change (2 ^ 8) with 256; lia).
  apply lor_disjoint; [lia | exact Hp].
Qed.

Lemma SymbolNameLength_loop_pack cs :
  Forall is_upper cs ->
  forall fuel n,
    (length cs < fuel)%nat -> 0 <= n -> n + Z.of_nat (length cs) <= 8 ->
    SymbolNameLength_loop fuel (pack cs) n = Ok (n + Z.of_nat (length cs)).
Proof.
  induction 1 as [|c cs Hc Hcs IH]; intros fuel n Hfuel Hn Hlen;
    (destruct fuel as [|fuel]; [cbn [length] in Hfuel; lia|]).
  - cbn [SymbolNameLength_loop pack length]. f_equal. lia.
  - cbn [SymbolNameLength_loop pack]. cbn [length] in *.
    pose proof (upper_byte _ Hcs) as Hb.
    unfold is_upper, CHAR_A, CHAR_Z in Hc.
    rewrite land_pack_cons, shr_pack_cons by lia.
    replace (c =? 0) with false by (symmetry; apply Z.eqb_neq; lia).
    replace (n <=? 7) with true by (symmetry; apply Z.leb_le; lia).
    cbn [negb andb]. rewrite IH by lia. f_equal. lia.
Qed.

Lemma isSymbolValid_dowhile_zero i :
  0 <= i < 7 -> isSymbolValid_dowhile 8 0 i = Ok (Some (0, 7)).
Proof.
  intros Hi.
  assert (Hcases : i = 0 \/ i = 1 \/ i = 2 \/ i = 3 \/ i = 4 \/ i = 5 \/ i = 6) by lia.
  destruct Hcases as [-> | [-> | [-> | [-> | [-> | [-> | ->]]]]]]; reflexivity.
Qed.

Lemma isSymbolValid_for_pack cs :
  Forall is_upper cs -> cs <> [] ->
  forall fuel i,
    (length cs < fuel)%nat -> 0 <= i -> i + Z.of_nat (length cs) <= 7 ->
    isSymbolValid_for fuel (pack cs) i = Ok true.
Proof.
  induction 1 as [|c cs Hc Hcs IH]; intros Hne fuel i Hfuel Hi Hlen; [congruence|].
  destruct fuel as [|fuel]; [cbn [length] in Hfuel; lia|].
  cbn [length] in *. cbn [isSymbolValid_for pack].
  pose proof (upper_byte _ Hcs) as Hb.
  unfold is_upper in Hc. unfold CHAR_A, CHAR_Z in Hc.
  replace (i <? 7) with true by (symmetry; apply Z.ltb_lt; lia).
  rewrite land_pack_cons, shr_pack_cons, wrap8_byte by lia.
  replace (c <? CHAR_A) with false by (symmetry; apply Z.ltb_ge; unfold CHAR_A; lia).
  replace (c >? CHAR_Z) with false by (symmetry; unfold CHAR_Z; lia).
  cbn [orb]. destruct cs as [|c' cs'].
  - cbn [pack]. change (Z.land 0 255 =? 0) with true. cbv iota.
    rewrite isSymbolValid_dowhile_zero by (cbn [length] in Hlen; lia).
    unfold mbind, result_bind, rbind.
    destruct fuel as [|fuel]; [cbn [length] in Hfuel; lia | reflexivity].
  - assert (Hc' : is_upper c') by now inversion Hcs.
    unfold is_upper, CHAR_A, CHAR_Z in Hc'.
    cbn [pack]. rewrite land_pack_cons by (inversion Hb; lia).
    replace (c' =? 0) with false by (symmetry; apply Z.eqb_neq; lia).
    apply IH; [discriminate | lia | lia | lia].
Qed.

Lemma isSymbolValid_run (h : gmap loc Asset) (this : loc) (a : Asset) (p : Z) cs :
  h !! this = Some a ->
  _symbol a = p + 256 * pack cs ->
  0 <= p < 256 -> Forall is_upper cs -> (length cs <= 7)%nat ->
  isSymbolValid this h = Ok (negb (Nat.eqb (length cs) 0), h).
Proof.
  intros Hthis Hsym Hp Hup Hlen. unfold isSymbolValid. run.
  rewrite Hsym, shr_pack_cons by assumption.
  destruct cs as [|c cs]; [reflexivity|].
  rewrite isSymbolValid_for_pack; [reflexivity | assumption | discriminate | | lia |];
    cbn [length] in *; lia.
Qed.

(** C2, as stated, fails for the empty name: its symbol is the bare
    precision byte, and [isSymbolValid] rejects it. *)
Lemma empty_name_invalid :
  StringToSymbol 4 (lit "") = Ok 4
  /\ SymbolNameLength 4 = Ok 0
  /\ run (a ← new_Asset 0 4; isSymbolValid a) = Ok false.
Proof. repeat split. Qed.

(** C2, amended: for a precision in [0, 18] and a name of at most seven
    capital letters, the length read back from the encoded symbol is the
    length of the name, and [isSymbolValid] on an asset with that symbol
    returns [true] exactly when the name is not empty. *)
Theorem symbol_roundtrip (p : Z) (s : jsstring) :
  0 <= p <= 18 ->
  Forall is_upper s ->
  (length s <= 7)%nat ->
  exists sym,
    StringToSymbol p s = Ok sym
    /\ SymbolNameLength sym = Ok (Z.of_nat (length s))
    /\ forall (h : gmap loc Asset) (this : loc) (a : Asset),
        h !! this = Some a -> _symbol a = sym ->
        isSymbolValid this h = Ok (negb (Nat.eqb (length s) 0), h).
Proof.
  intros Hp Hup Hlen. exists (p + 256 * pack s).
  split; [apply StringToSymbol_upper; auto; unfold is_u8; lia|]. split.
  - unfold SymbolNameLength. rewrite shr_pack_cons by lia.
    rewrite SymbolNameLength_loop_pack; auto; simpl; lia.
  - intros h this a Hthis Hsym.
    apply isSymbolValid_run with a p; auto. lia.
Qed.

Lemma symbol_roundtrip_witness :
  exists sym,
    StringToSymbol 4 (lit "UGAS") = Ok sym
    /\ SymbolNameLength sym = Ok (Z.of_nat (length (lit "UGAS")))
    /\ forall (h : gmap loc Asset) (this : loc) (a : Asset),
        h !! this = Some a -> _symbol a = sym ->
        isSymbolValid this h = Ok (negb (Nat.eqb (length (lit "UGAS")) 0), h).
Proof.
  apply (symbol_roundtrip 4 (lit "UGAS")).
  - lia.
  - repeat constructor; unfold CHAR_A, CHAR_Z; simpl; lia.
  - simpl; lia.
Defined.

(** ** The length byte of [StringToSymbol] *)

Lemma fold_left_agree {S X} (f g : S -> X -> S) (l : list X) (s : S) :
  (forall x s, x ∈ l -> f s x = g s x) -> fold_left f l s = fold_left g l s.
Proof.
  revert s. induction l as [|x l IH]; intros s Hfg; [reflexivity|].
  cbn [fold_left]. rewrite Hfg by left. apply IH.
  intros y t Hy. apply Hfg. now right.
Qed.

Lemma charCodeAt_take (str : jsstring) (n : nat) i :
  0 <= i < Z.of_nat n -> charCodeAt (take n str) i = charCodeAt str i.
Proof.
  intros Hi. unfold charCodeAt.
  now rewrite lookup_take_lt by lia.
Qed.

Lemma StringToSymbol_prefix (p : Z) (str str' : jsstring) (n : nat) :
  Z.of_nat (length str) mod 256 = Z.of_nat n ->
  Z.of_nat (length str') mod 256 = Z.of_nat n ->
  take n str = take n str' ->
  StringToSymbol_logged p str = StringToSymbol_logged p str'.
Proof.
  intros Hn Hn' Htake. unfold StringToSymbol_logged, wrap8, wrap.
  change (2 ^ 8) with 256. rewrite Hn, Hn'.
  destruct (Z.of_nat n <=? 7); [|reflexivity].
  cbn [ultrain_assert]. unfold mbind, result_bind, rbind.
  rewrite (fold_left_agree (StringToSymbol_body str) (StringToSymbol_body str')).
  - reflexivity.
  - intros i st Hi. apply elem_of_seqZ in Hi.
    unfold StringToSymbol_body.
    rewrite <- (charCodeAt_take str n), <- (charCodeAt_take str' n) by lia.
    now rewrite Htake.
Qed.

(** C10: [StringToSymbol] compares the length of the name modulo 256 with
    7. A name whose length modulo 256 is [n <= 7] is encoded without the
    length error whatever its full length; the result depends on the first
    [n] characters only, and is the symbol of those [n] characters; a name
    of 256 characters is encoded as the bare precision. *)
Theorem StringToSymbol_length_wraps (p : Z) (str : jsstring) (n : nat) :
  Z.of_nat (length str) mod 256 = Z.of_nat n ->
  (n <= 7)%nat ->
  (exists sym, StringToSymbol p str = Ok sym)
  /\ (forall str' : jsstring,
        Z.of_nat (length str') mod 256 = Z.of_nat n ->
        take n str' = take n str ->
        StringToSymbol p str' = StringToSymbol p str)
  /\ StringToSymbol p (take n str) = StringToSymbol p str
  /\ (length str = 256%nat -> StringToSymbol p str = Ok p).
Proof.
  intros Hn Hle.
  assert (Hok : exists sym, StringToSymbol p str = Ok sym).
  { unfold StringToSymbol, StringToSymbol_logged, wrap8, wrap.
    change (2 ^ 8) with 256. rewrite Hn.
    replace (Z.of_nat n <=? 7) with true by (symmetry; apply Z.leb_le; lia).
    cbn [ultrain_assert]. unfold mbind, result_bind, rbind, mret, result_ret.
    destruct (fold_left _ _ _) as [r logged]. eauto. }
  assert (Hpre : forall str' : jsstring,
             Z.of_nat (length str') mod 256 = Z.of_nat n ->
             take n str' = take n str ->
             StringToSymbol p str' = StringToSymbol p str).
  { intros str' Hn' Htake. unfold StringToSymbol.
    now rewrite (StringToSymbol_prefix p str' str n). }
  split; [exact Hok|]. split; [exact Hpre|]. split.
  - apply Hpre; [|now rewrite take_take, Nat.min_id].
    assert (n <= length str)%nat.
    { pose proof (Z.mod_le (Z.of_nat (length str)) 256). lia. }
    rewrite length_take_le by assumption. apply Z.mod_small. lia.
  - intros Hlen. rewrite Hlen in Hn. change (Z.of_nat 256 mod 256) with 0 in Hn.
    assert (n = 0%nat) as -> by lia.
    unfold StringToSymbol, StringToSymbol_logged, wrap8, wrap.
    rewrite Hlen. reflexivity.
Qed.

Lemma StringToSymbol_length_wraps_witness :
  (exists sym, StringToSymbol 4 (replicate 256 CHAR_A) = Ok sym)
  /\ (forall str' : jsstring,
        Z.of_nat (length str') mod 256 = Z.of_nat 0 ->
        take 0 str' = take 0 (replicate 256 CHAR_A) ->
        StringToSymbol 4 str' = StringToSymbol 4 (replicate 256 CHAR_A))
  /\ StringToSymbol 4 (take 0 (replicate 256 CHAR_A))
     = StringToSymbol 4 (replicate 256 CHAR_A)
  /\ (length (replicate 256 CHAR_A) = 256%nat ->
      StringToSymbol 4 (replicate 256 CHAR_A) = Ok 4).
Proof.
  apply (StringToSymbol_length_wraps 4 (replicate 256 CHAR_A) 0).
  - reflexivity.
  - lia.
Defined.

Example StringToSymbol_nine_letters :
  StringToSymbol 4 (lit "ABCDEFGHI")
  = Abort "length of _symbol name must be less than 7.".
Proof. reflexivity. Qed.

Example StringToSymbol_258_letters :
  StringToSymbol 4 (lit "UG" ++ replicate 256 CHAR_A) = StringToSymbol 4 (lit "UG").
Proof. reflexivity. Qed.

(** ** Rendering *)

Lemma itoa64_nonneg v : 0 <= v < 2 ^ 63 -> itoa64 v = utoa v.
Proof.
  intros Hv. unfold itoa64, to_i64.
  replace (v <? 2 ^ 63) with true by (symmetry; apply Z.ltb_lt; lia).
  now replace (v <? 0) with false by (symmetry; apply Z.ltb_ge; lia).
Qed.

Lemma length_utoa_go fuel :
  forall n acc (k : nat),
    0 <= n < 10 ^ Z.of_nat k -> (1 <= k)%nat ->
    (length acc < length (utoa_go (S fuel) n acc) <= length acc + k)%nat.
Proof.
  induction fuel as [|fuel IH]; intros n acc k Hn Hk.
  - cbn [utoa_go]. destruct (n / 10 =? 0); cbn [length]; lia.
  - cbn [utoa_go] in *. destruct (n / 10 =? 0) eqn:Hq; [cbn [length]; lia|].
    apply Z.eqb_neq in Hq.
    assert (Hk2 : (2 <= k)%nat).
    { destruct k as [|[|k]]; [lia | | lia].
      change (10 ^ Z.of_nat 1) with 10 in Hn. rewrite Z.div_small in Hq; lia. }
    destruct k as [|k]; [lia|].
    assert (Hdiv : 0 <= n / 10 < 10 ^ Z.of_nat k).
    { rewrite Nat2Z.inj_succ, Z.pow_succ_r in Hn by lia.
      split; [apply Z.div_pos; lia | apply Z.div_lt_upper_bound; lia]. }
    specialize (IH (n / 10) ((48 + n mod 10) :: acc) k Hdiv ltac:(lia)).
    cbn [length] in IH. lia.
Qed.

Lemma length_utoa n (k : nat) :
  0 <= n < 10 ^ Z.of_nat k -> (1 <= k)%nat -> (1 <= length (utoa n) <= k)%nat.
Proof.
  intros Hn Hk. pose proof (length_utoa_go 19 n [] k Hn Hk) as H.
  cbn [length] in H. unfold utoa. lia.
Qed.

Lemma mjoin_replicate_singleton {A} (k : nat) (x : A) :
  mjoin (replicate k [x]) = replicate k x.
Proof.
  induction k as [|k IH]; [reflexivity|]. cbn [replicate].
  change (mjoin ([x] :: replicate k [x])) with ([x] ++ mjoin (replicate k [x])).
  now rewrite IH.
Qed.

Lemma length_fraction amount p :
  1 <= p -> Z.of_nat (length (fraction amount p)) = p.
Proof.
  intros Hp. unfold fraction.
  assert (Hlen : (1 <= length (utoa (amount mod 10 ^ p)) <= Z.to_nat p)%nat).
  { apply length_utoa; [|lia]. rewrite Z2Nat.id by lia.
    apply Z.mod_pos_bound. apply Z.pow_pos_nonneg; lia. }
  rewrite length_app, length_replicate. lia.
Qed.

Lemma formatAmount_zero amount :
  0 <= amount < 2 ^ 63 -> formatAmount amount 0 = Ok (utoa amount).
Proof.
  intros Ha. unfold formatAmount, pow10_u64. cbn.
  now rewrite Z.div_1_r, itoa64_nonneg.
Qed.

Lemma formatAmount_pos amount p :
  0 <= amount < 2 ^ 63 -> 1 <= p <= 19 ->
  formatAmount amount p
  = Ok (utoa (amount / 10 ^ p) ++ lit "." ++ fraction amount p).
Proof.
  intros Ha Hp. unfold formatAmount, pow10_u64.
  replace (p <=? 19) with true by (symmetry; apply Z.leb_le; lia).
  unfold mbind, result_bind, rbind, mret, result_ret.
  replace (p =? 0) with false by (symmetry; apply Z.eqb_neq; lia).
  cbn [negb].
  assert (Hpow : 0 < 10 ^ p) by (apply Z.pow_pos_nonneg; lia).
  assert (Hmod : 0 <= amount mod 10 ^ p < 10 ^ p) by (apply Z.mod_pos_bound; lia).
  assert (Hdiv : 0 <= amount / 10 ^ p <= amount).
  { split; [apply Z.div_pos; lia | apply Z.div_le_upper_bound; nia]. }
  assert (Hmod' : amount mod 10 ^ p <= amount) by (apply Z.mod_le; lia).
  rewrite !itoa64_nonneg by lia.
  assert (Hlen : (1 <= length (utoa (amount mod 10 ^ p)) <= Z.to_nat p)%nat).
  { apply length_utoa; [|lia]. now rewrite Z2Nat.id by lia. }
  unfold fraction.
  destruct (Z.of_nat (length (utoa (amount mod 10 ^ p))) =? p) eqn:He; cbn [negb].
  - apply Z.eqb_eq in He.
    replace (Z.to_nat p - length (utoa (amount mod 10 ^ p)))%nat with 0%nat by lia.
    reflexivity.
  - apply Z.eqb_neq in He. unfold jsrepeat.
    replace (p - Z.of_nat (length (utoa (amount mod 10 ^ p))) <? 0) with false
      by (symmetry; apply Z.ltb_ge; lia).
    change (lit "0") with [48]. rewrite mjoin_replicate_singleton.
    do 5 f_equal. lia.
Qed.

Lemma toString_body_done x acc i :
  0 <= x < 256 -> toString_body (x, acc) i = (0, acc).
Proof.
  intros Hx. unfold toString_body. now rewrite shr64_8, Z.div_small by lia.
Qed.

Lemma toString_fold_done l :
  forall x acc, 0 <= x < 256 -> snd (fold_left toString_body l (x, acc)) = acc.
Proof.
  induction l as [|i l IH]; intros x acc Hx; [reflexivity|].
  cbn [fold_left]. rewrite toString_body_done by assumption. apply IH. lia.
Qed.

Lemma toString_fold_pack cs :
  Forall is_upper cs ->
  forall l p acc, 0 <= p < 256 -> (length cs <= length l)%nat ->
    snd (fold_left toString_body l (p + 256 * pack cs, acc)) = acc ++ cs.
Proof.
  induction 1 as [|c cs Hc Hcs IH]; intros l p acc Hp Hlen.
  - cbn [pack]. rewrite Z.mul_0_r, Z.add_0_r, toString_fold_done by lia.
    now rewrite app_nil_r.
  - destruct l as [|i l]; [cbn [length] in Hlen; lia|].
    cbn [fold_left]. unfold toString_body at 2.
    rewrite shr_pack_cons by assumption. cbn [pack].
    pose proof (upper_byte _ Hcs) as Hb.
    unfold is_upper, CHAR_A, CHAR_Z in Hc.
    rewrite land_pack_cons, wrap8_byte by lia.
    replace (c >=? CHAR_A) with true by (symmetry; unfold CHAR_A; lia).
    replace (c <=? CHAR_Z) with true by (symmetry; unfold CHAR_Z; lia).
    cbn [andb]. rewrite IH by (cbn [length] in Hlen; lia).
    now rewrite <- app_assoc.
Qed.

Lemma dec_value_utoa_go fuel :
  forall n acc,
    0 <= n < 10 ^ Z.of_nat fuel ->
    fold_left (fun v d => 10 * v + (d - 0x30)) (utoa_go fuel n acc) 0
    = fold_left (fun v d => 10 * v + (d - 0x30)) acc n.
Proof.
  induction fuel as [|fuel IH]; intros n acc Hn.
  - cbn [utoa_go]. change (10 ^ Z.of_nat 0) with 1 in Hn. now replace n with 0 by lia.
  - cbn [utoa_go]. rewrite Nat2Z.inj_succ, Z.pow_succ_r in Hn by lia.
    pose proof (Z.div_mod n 10 ltac:(lia)) as Hdm.
    destruct (n / 10 =? 0) eqn:Hq.
    + apply Z.eqb_eq in Hq. cbn [fold_left]. f_equal. lia.
    + rewrite IH.
      * cbn [fold_left]. f_equal. lia.
      * split; [apply Z.div_pos; lia | apply Z.div_lt_upper_bound; lia].
Qed.

Lemma dec_value_utoa n : 0 <= n < 10 ^ 20 -> dec_value (utoa n) = n.
Proof. intros Hn. unfold dec_value, utoa. now rewrite dec_value_utoa_go. Qed.

Lemma dec_value_fraction amount p :
  0 <= p <= 20 -> dec_value (fraction amount p) = amount mod 10 ^ p.
Proof.
  intros Hp. unfold fraction, dec_value. rewrite fold_left_app.
  assert (Hzeros : forall k, fold_left (fun v d => 10 * v + (d - 0x30))
                               (replicate k 0x30) 0 = 0).
  { induction k as [|k IH]; [reflexivity | exact IH]. }
  rewrite Hzeros. apply dec_value_utoa.
  assert (0 < 10 ^ p <= 10 ^ 20).
  { split; [apply Z.pow_pos_nonneg; lia | apply Z.pow_le_mono_r; lia]. }
  pose proof (Z.mod_pos_bound amount (10 ^ p)). lia.
Qed.

Lemma toString_run (h : gmap loc Asset) (this : loc) (a : Asset) (p : Z) cs :
  h !! this = Some a ->
  _symbol a = p + 256 * pack cs ->
  0 <= p <= 19 -> Forall is_upper cs -> (length cs <= 7)%nat ->
  0 <= _amount a < 2 ^ 63 ->
  toString this h
  = Ok ((if p =? 0 then utoa (_amount a)
         else utoa (_amount a / 10 ^ p) ++ lit "." ++ fraction (_amount a) p)
        ++ lit " " ++ cs, h).
Proof.
  intros Hthis Hsym Hp Hup Hlen Ha. unfold toString, amount_get. run.
  rewrite Hsym, land_pack_cons, wrap8_byte by lia.
  pose proof (toString_fold_pack cs Hup (seqZ 0 7) p [] ltac:(lia) Hlen) as Hfold.
  destruct (fold_left toString_body (seqZ 0 7) (p + 256 * pack cs, [])) as [x symbol].
  cbn [snd app] in Hfold. subst symbol. run.
  destruct (Z.eq_dec p 0) as [-> | Hp0].
  - rewrite formatAmount_zero by assumption. now run.
  - rewrite formatAmount_pos by lia. run.
    now replace (p =? 0) with false by (symmetry; apply Z.eqb_neq; lia).
Qed.

(** C9: [toString] renders amount 10000 with the symbol of precision 4
    and name "UGAS" as "1.0000 UGAS", and amount 0 with the symbol of
    precision 0 and name "XRT" as "0 XRT". In general, for an amount below
    [2^63] and a symbol made by [StringToSymbol] from a precision [p <= 19]
    and a name of at most seven capital letters, the text is the integer
    part in decimal, then, unless [p] is 0, a point and the fractional part
    [amount mod 10^p] written with exactly [p] digits, zeros in front, then
    a space and the name. *)
Theorem toString_spec :
  run (sy ← lift (StringToSymbol 4 (lit "UGAS"));
       a ← new_Asset 10000 sy; toString a) = Ok (lit "1.0000 UGAS")
  /\ run (sy ← lift (StringToSymbol 0 (lit "XRT"));
          a ← new_Asset 0 sy; toString a) = Ok (lit "0 XRT")
  /\ forall (h : gmap loc Asset) (this : loc) (a : Asset) (p : Z) (s : jsstring),
      h !! this = Some a ->
      0 <= _amount a < 2 ^ 63 ->
      0 <= p <= 19 ->
      Forall is_upper s ->
      (length s <= 7)%nat ->
      StringToSymbol p s = Ok (_symbol a) ->
      toString this h
      = Ok ((if p =? 0 then utoa (_amount a)
             else utoa (_amount a / 10 ^ p) ++ lit "." ++ fraction (_amount a) p)
            ++ lit " " ++ s, h)
      /\ dec_value (utoa (_amount a / 10 ^ p)) = _amount a / 10 ^ p
      /\ dec_value (fraction (_amount a) p) = _amount a mod 10 ^ p
      /\ (1 <= p -> Z.of_nat (length (fraction (_amount a) p)) = p).
Proof.
  split; [vm_compute; reflexivity|]. split; [vm_compute; reflexivity|].
  intros h this a p s Hthis Ha Hp Hup Hlen Hsym.
  rewrite StringToSymbol_upper in Hsym by (auto; unfold is_u8; lia).
  injection Hsym as Hsym. symmetry in Hsym.
  split; [now apply toString_run|].
  assert (Hpow : 0 < 10 ^ p) by (apply Z.pow_pos_nonneg; lia).
  split; [|split].
  - apply dec_value_utoa. split; [apply Z.div_pos; lia|].
    apply Z.le_lt_trans with (_amount a); [apply Z.div_le_upper_bound; nia | lia].
  - apply dec_value_fraction. lia.
  - apply length_fraction.
Qed.

Lemma toString_spec_witness :
  toString 0%nat store_10000
  = Ok ((if 4 =? 0 then utoa 10000
         else utoa (10000 / 10 ^ 4) ++ lit "." ++ fraction 10000 4)
        ++ lit " " ++ lit "UGAS", store_10000)
  /\ dec_value (utoa (10000 / 10 ^ 4)) = 10000 / 10 ^ 4
  /\ dec_value (fraction 10000 4) = 10000 mod 10 ^ 4
  /\ (1 <= 4 -> Z.of_nat (length (fraction 10000 4)) = 4).
Proof.
  apply (proj2 (proj2 toString_spec) store_10000 0%nat (mkAsset 10000 UGAS) 4 (lit "UGAS")).
  - reflexivity.
  - simpl; lia.
  - lia.
  - repeat constructor; unfold CHAR_A, CHAR_Z; simpl; lia.
  - simpl; lia.
  - reflexivity.
Defined.

(** ** Termination of the loops *)

Lemma SymbolNameLength_total symbolName :
  exists n, SymbolNameLength symbolName = Ok n /\ 0 <= n <= 8.
Proof.
  unfold SymbolNameLength. cbn [SymbolNameLength_loop].
  repeat match goal with
         | |- context [negb (Z.land ?x 255 =? 0)] =>
             destruct (negb (Z.land x 255 =? 0)); cbn [andb Z.leb Z.compare Z.add Pos.add
                                                        Pos.compare Pos.compare_cont Pos.succ]
         end;
    eexists; (split; [reflexivity | lia]).
Qed.

Lemma isSymbolValid_dowhile_total fuel :
  forall sym i,
    (1 <= fuel)%nat -> 6 - i < Z.of_nat fuel ->
    exists r, isSymbolValid_dowhile fuel sym i = Ok r
              /\ forall s' i', r = Some (s', i') -> 7 <= i'.
Proof.
  induction fuel as [|fuel IH]; intros sym i Hfuel Hi; [lia|].
  cbn [isSymbolValid_dowhile].
  destruct (negb (Z.land (shr64 sym 8) 255 =? 0)).
  - eexists. split; [reflexivity | discriminate].
  - destruct (Z.ltb_spec (i + 1) 7) as [Hlt | Hge].
    + apply IH; lia.
    + eexists. split; [reflexivity|]. intros s' i' [= _ <-]. lia.
Qed.

Lemma isSymbolValid_for_total fuel :
  forall sym i,
    (1 <= fuel)%nat -> 0 <= i -> 7 - i < Z.of_nat fuel ->
    exists b, isSymbolValid_for fuel sym i = Ok b.
Proof.
  induction fuel as [|fuel IH]; intros sym i Hfuel Hi0 Hi; [lia|].
  cbn [isSymbolValid_for].
  destruct (Z.ltb_spec i 7) as [Hlt | Hge]; [|eauto].
  destruct (_ || _); [eauto|].
  destruct (Z.land (shr64 sym 8) 255 =? 0); [|apply IH; lia].
  destruct (isSymbolValid_dowhile_total 8 (shr64 sym 8) i) as (r & Hr & Hexit); [lia | lia |].
  rewrite Hr. unfold mbind, result_bind, rbind.
  destruct r as [[s' i']|]; [|eauto].
  specialize (Hexit s' i' eq_refl). apply IH; lia.
Qed.

Lemma isSymbolValid_total (h : gmap loc Asset) (this : loc) (a : Asset) :
  h !! this = Some a -> exists b, isSymbolValid this h = Ok (b, h).
Proof.
  intros Hthis. unfold isSymbolValid. run.
  destruct (isSymbolValid_for_total 8 (shr64 (_symbol a) 8) 0) as [b Hb]; [lia | lia | lia |].
  rewrite Hb. eauto.
Qed.

(** * Further properties *)

(** ** Encoding of arbitrary names *)

Lemma low_byte_range c : 0 <= low_byte c < 256.
Proof.
  unfold low_byte. rewrite land_0xff.
  pose proof (Z.mod_pos_bound c 256 ltac:(lia)). now rewrite wrap8_byte.
Qed.

Lemma upperb_spec b : upperb b = true <-> is_upper b.
Proof. unfold upperb, is_upper. rewrite andb_true_iff, !Z.leb_le. tauto. Qed.

Lemma name_byte_range c : 0 <= name_byte c < 128.
Proof.
  unfold name_byte. destruct (upperb (low_byte c)) eqn:Hu; [|lia].
  apply upperb_spec in Hu. unfold is_upper, CHAR_A, CHAR_Z in Hu. lia.
Qed.

Lemma name_bytes_range (str : jsstring) :
  Forall (fun c => 0 <= c < 256) (map name_byte str).
Proof.
  apply Forall_forall. intros b Hb. apply list_elem_of_In, in_map_iff in Hb.
  destruct Hb as (c & <- & _). pose proof (name_byte_range c). lia.
Qed.

Lemma StringToSymbol_body_any (str : jsstring) (n : nat) c logged :
  str !! n = Some c -> (n < 7)%nat ->
  StringToSymbol_body str (256 * pack (map name_byte (take n str)), logged) (Z.of_nat n)
  = (256 * pack (map name_byte (take (S n) str)),
     logged ++ (if upperb (low_byte c) then [] else [low_byte c])).
Proof.
  intros Hc Hn. unfold StringToSymbol_body.
  rewrite (charCodeAt_lookup _ _ _ Hc). fold (low_byte c).
  assert (Hlen : length (map name_byte (take n str)) = n).
  { rewrite length_map. apply length_take_le. apply lookup_lt_Some in Hc. lia. }
  pose proof (pack_bounds _ (name_bytes_range (take n str))) as Hb.
  rewrite Hlen in Hb.
  rewrite (take_S_r _ _ _ Hc), map_app. cbn [map]. rewrite pack_snoc, Hlen.
  replace ((low_byte c <? CHAR_A) || (low_byte c >? CHAR_Z))
    with (negb (upperb (low_byte c))).
  2:{ unfold upperb. rewrite negb_andb, Z.gtb_ltb, !Z.leb_antisym, !negb_involutive.
      reflexivity. }
  assert (Hnb : name_byte c = if upperb (low_byte c) then low_byte c else 0)
    by reflexivity.
  rewrite Hnb. destruct (upperb (low_byte c)) eqn:Hu; cbn [negb].
  - rewrite app_nil_r. f_equal.
    apply upperb_spec in Hu. unfold is_upper, CHAR_A, CHAR_Z in Hu.
    rewrite shl64_char by lia.
    assert (Hpow : 256 ^ (Z.of_nat n + 1) = 2 ^ (8 * (Z.of_nat n + 1))).
    { rewrite (Z.pow_mul_r 2 8) by lia. reflexivity. }
    rewrite Hpow, lor_disjoint; rewrite <- ?Hpow; rewrite ?Z.pow_add_r by lia;
      change (256 ^ 1) with 256; lia.
  - f_equal. lia.
Qed.

Lemma StringToSymbol_fold_any (str : jsstring) (n : nat) :
  (n <= length str)%nat -> (n <= 7)%nat ->
  fold_left (StringToSymbol_body str) (seqZ 0 (Z.of_nat n)) (0, [])
  = (256 * pack (map name_byte (take n str)),
     List.filter (fun b => negb (upperb b)) (map low_byte (take n str))).
Proof.
  induction n as [|n IH]; intros Hlen Hn; [reflexivity|].
  rewrite seqZ_S, fold_left_app, IH by lia. cbn [fold_left]. rewrite Z.add_0_l.
  destruct (lookup_lt_is_Some_2 str n) as [c Hc]; [lia|].
  rewrite (StringToSymbol_body_any str n c) by (auto; lia).
  f_equal. rewrite (take_S_r _ _ _ Hc), map_app, List.filter_app. f_equal.
  cbn. now destruct (upperb (low_byte c)).
Qed.

Lemma StringToSymbol_logged_any (precision : Z) (str : jsstring) :
  is_u8 precision ->
  (length str <= 7)%nat ->
  StringToSymbol_logged precision str
  = Ok (precision + 256 * pack (map name_byte str),
        List.filter (fun b => negb (upperb b)) (map low_byte str)).
Proof.
  intros Hp Hlen.
  unfold StringToSymbol_logged. rewrite wrap8_byte by lia.
  replace (Z.of_nat (length str) <=? 7) with true by (symmetry; apply Z.leb_le; lia).
  cbn [ultrain_assert]. unfold mbind, result_bind, rbind, mret, result_ret.
  rewrite StringToSymbol_fold_any, firstn_all by lia. do 2 f_equal.
  rewrite Z.lor_comm.
  replace (256 * pack (map name_byte str))
    with (pack (map name_byte str) * 2 ^ 8) by (change (2 ^ 8) with 256; lia).
  apply lor_disjoint; [lia | exact Hp].
Qed.

Lemma StringToSymbol_any (precision : Z) (str : jsstring) :
  is_u8 precision ->
  (length str <= 7)%nat ->
  StringToSymbol precision str = Ok (precision + 256 * pack (map name_byte str)).
Proof.
  intros Hp Hlen. unfold StringToSymbol.
  now rewrite StringToSymbol_logged_any.
Qed.

(** X1: on a name of at most seven characters [StringToSymbol] never
    fails, whatever the characters. Each character leaves its low byte in
    the symbol when that byte is a capital letter and a zero byte
    otherwise, above the precision byte; the low bytes of the other
    characters are what goes to the log, in order. *)
Theorem StringToSymbol_bytes (precision : Z) (str : jsstring) :
  is_u8 precision ->
  (length str <= 7)%nat ->
  StringToSymbol_logged precision str
  = Ok (precision + 256 * pack (map name_byte str),
        List.filter (fun b => negb (upperb b)) (map low_byte str))
  /\ StringToSymbol precision str = Ok (precision + 256 * pack (map name_byte str)).
Proof.
  intros Hp Hlen. split.
  - now apply StringToSymbol_logged_any.
  - now apply StringToSymbol_any.
Qed.

Lemma StringToSymbol_bytes_witness :
  StringToSymbol_logged 4 (lit "Ab1C")
  = Ok (4 + 256 * pack (map name_byte (lit "Ab1C")),
        List.filter (fun b => negb (upperb b)) (map low_byte (lit "Ab1C")))
  /\ StringToSymbol 4 (lit "Ab1C") = Ok (4 + 256 * pack (map name_byte (lit "Ab1C"))).
Proof.
  apply (StringToSymbol_bytes 4 (lit "Ab1C")).
  - unfold is_u8; lia.
  - simpl; lia.
Defined.

Example StringToSymbol_Ab1C :
  StringToSymbol_logged 4 (lit "Ab1C") = Ok (0x4300004104, lit "b1").
Proof. reflexivity. Qed.

(** ** Which symbols are valid *)

Lemma isSymbolValid_dowhile_Some fuel :
  forall x i r,
    0 <= x -> 0 <= i <= 6 ->
    isSymbolValid_dowhile fuel x i = Ok (Some r) ->
    (x / 256) mod 256 ^ (7 - i) = 0.
Proof.
  induction fuel as [|fuel IH]; intros x i r Hx Hi Hrun; [discriminate|].
  cbn [isSymbolValid_dowhile] in Hrun. rewrite shr64_8, land_0xff in Hrun.
  destruct (Z.eqb_spec ((x / 256) mod 256) 0) as [Hz | Hnz]; [|discriminate].
  cbn [negb] in Hrun.
  destruct (Z.ltb_spec (i + 1) 7) as [Hlt | Hge].
  - apply IH in Hrun; [|apply Z.div_pos; lia | lia].
    replace (7 - i) with (1 + (7 - (i + 1))) by lia.
    rewrite Z.pow_add_r, Z.rem_mul_r by lia.
    change (256 ^ 1) with 256. rewrite Hz, Hrun. lia.
  - replace (7 - i) with 1 by lia. exact Hz.
Qed.

Lemma isSymbolValid_for_sound (n : nat) :
  forall fuel x i,
    Z.of_nat n = 7 - i -> 0 <= i -> (1 <= n)%nat -> 0 <= x < 256 ^ Z.of_nat n ->
    isSymbolValid_for fuel x i = Ok true ->
    exists cs, cs <> [] /\ (length cs <= n)%nat /\ Forall is_upper cs /\ x = pack cs.
Proof.
  induction n as [|m IH]; intros fuel x i Hni Hi Hn Hx Hrun; [lia|].
  destruct fuel as [|fuel]; [discriminate|].
  cbn [isSymbolValid_for] in Hrun.
  replace (i <? 7) with true in Hrun by (symmetry; apply Z.ltb_lt; lia).
  rewrite land_0xff, shr64_8, land_0xff in Hrun.
  pose proof (Z.mod_pos_bound x 256 ltac:(lia)) as Hc.
  rewrite wrap8_byte in Hrun by assumption.
  destruct ((x mod 256 <? CHAR_A) || (x mod 256 >? CHAR_Z)) eqn:Hbad; [discriminate|].
  apply orb_false_elim in Hbad. destruct Hbad as [HA HZ].
  apply Z.ltb_ge in HA. rewrite Z.gtb_ltb in HZ. apply Z.ltb_ge in HZ.
  assert (Hx' : 0 <= x / 256 < 256 ^ Z.of_nat m).
  { rewrite Nat2Z.inj_succ, Z.pow_succ_r in Hx by lia.
    split; [apply Z.div_pos; lia | apply Z.div_lt_upper_bound; lia]. }
  pose proof (Z.div_mod x 256 ltac:(lia)) as Hdm.
  destruct (Z.eqb_spec ((x / 256) mod 256) 0) as [Hz | Hnz].
  - exists [x mod 256]. split; [discriminate|]. split; [cbn [length]; lia|].
    split; [repeat constructor; assumption|].
    destruct (isSymbolValid_dowhile 8 (x / 256) i) as [[r|]| | |] eqn:Hdo;
      try discriminate.
    apply isSymbolValid_dowhile_Some in Hdo; [|lia|lia].
    assert (Hsmall : 0 <= x / 256 / 256 < 256 ^ (7 - i)).
    { split; [apply Z.div_pos; lia|].
      apply Z.div_lt_upper_bound; [lia|].
      replace (7 - i) with (Z.of_nat m + 1) by lia.
      rewrite Z.pow_add_r by lia. change (256 ^ 1) with 256.
      assert (0 < 256 ^ Z.of_nat m) by (apply Z.pow_pos_nonneg; lia). nia. }
    rewrite Z.mod_small in Hdo by assumption.
    pose proof (Z.div_mod (x / 256) 256 ltac:(lia)) as Hdm'.
    cbn [pack]. lia.
  - assert (Hm : (1 <= m)%nat).
    { destruct m; [|lia]. change (256 ^ Z.of_nat 0) with 1 in Hx'.
      replace (x / 256) with 0 in Hnz by lia. now rewrite Z.mod_0_l in Hnz. }
    destruct (IH fuel (x / 256) (i + 1) ltac:(lia) ltac:(lia) Hm Hx' Hrun)
      as (cs & Hne & Hlen & Hup & Hpack).
    exists (x mod 256 :: cs). split; [discriminate|]. split; [cbn [length]; lia|].
    split; [constructor; [split; assumption | assumption]|].
    cbn [pack]. lia.
Qed.

Lemma isSymbolValid_true_iff (h : gmap loc Asset) (this : loc) (a : Asset) :
  h !! this = Some a ->
  is_u64 (_symbol a) ->
  isSymbolValid this h = Ok (true, h)
  <-> exists cs, cs <> [] /\ (length cs <= 7)%nat /\ Forall is_upper cs
                 /\ _symbol a / 256 = pack cs.
Proof.
  intros Hthis Hsym. split.
  - intros Hrun. unfold isSymbolValid in Hrun.
    erewrite bind_Ok in Hrun by (apply rd_symbol_Ok; eassumption).
    unfold lift, mbind, result_bind, rbind, mret, result_ret in Hrun.
    destruct (isSymbolValid_for 8 (shr64 (_symbol a) 8) 0) as [b| | |] eqn:Hfor;
      try discriminate.
    injection Hrun as ->. rewrite shr64_8 in Hfor.
    apply (isSymbolValid_for_sound 7) in Hfor; [exact Hfor | lia | lia | lia |].
    unfold is_u64 in Hsym.
    split; [apply Z.div_pos; lia | apply Z.div_lt_upper_bound; lia].
  - intros (cs & Hne & Hlen & Hup & Hpack).
    pose proof (Z.div_mod (_symbol a) 256 ltac:(lia)) as Hdm.
    pose proof (Z.mod_pos_bound (_symbol a) 256 ltac:(lia)) as Hp.
    rewrite (isSymbolValid_run h this a (_symbol a mod 256) cs); auto; [|lia].
    destruct cs; [congruence | reflexivity].
Qed.

(** X2: [isSymbolValid] returns [true] exactly when the seven bytes above
    the precision byte are between one and seven capital letters followed
    by zero bytes only, and [false] otherwise; it never fails and never
    looks at the precision byte. *)
Theorem isSymbolValid_iff (h : gmap loc Asset) (this : loc) (a : Asset) :
  h !! this = Some a ->
  is_u64 (_symbol a) ->
  let named :=
    exists cs, cs <> [] /\ (length cs <= 7)%nat /\ Forall is_upper cs
               /\ _symbol a / 256 = pack cs in
  (isSymbolValid this h = Ok (true, h) <-> named)
  /\ (isSymbolValid this h = Ok (false, h) <-> ~ named).
Proof.
  intros Hthis Hsym named.
  pose proof (isSymbolValid_true_iff h this a Hthis Hsym) as Hiff.
  split; [exact Hiff|].
  destruct (isSymbolValid_total h this a Hthis) as [[|] Hb]; rewrite Hb.
  - rewrite Hb in Hiff. split; [discriminate | intros Hn; destruct Hn; tauto].
  - rewrite Hb in Hiff. split; [intros _ Hn; apply Hiff in Hn; discriminate | tauto].
Qed.

Lemma isSymbolValid_iff_witness :
  let named :=
    exists cs, cs <> [] /\ (length cs <= 7)%nat /\ Forall is_upper cs
               /\ _symbol (mkAsset 5 UGAS) / 256 = pack cs in
  (isSymbolValid 0%nat store_5_3 = Ok (true, store_5_3) <-> named)
  /\ (isSymbolValid 0%nat store_5_3 = Ok (false, store_5_3) <-> ~ named).
Proof.
  apply (isSymbolValid_iff store_5_3 0%nat (mkAsset 5 UGAS)).
  - reflexivity.
  - unfold is_u64, UGAS; simpl; lia.
Defined.

(** ** Which names give a valid symbol *)

Lemma pack_app_zeros cs k : pack (cs ++ replicate k 0) = pack cs.
Proof.
  induction cs as [|c cs IH]; cbn [app pack]; [|now rewrite IH].
  induction k as [|k IHk]; cbn [replicate pack]; lia.
Qed.

Lemma pack_zero bs :
  Forall (fun c => 0 <= c < 256) bs -> pack bs = 0 -> bs = replicate (length bs) 0.
Proof.
  induction 1 as [|b bs Hb Hbs IH]; intros Hp; [reflexivity|].
  cbn [pack] in Hp. pose proof (pack_bounds bs Hbs) as Hpb.
  cbn [length replicate]. rewrite <- IH by lia. f_equal. lia.
Qed.

Lemma pack_eq_upper cs :
  Forall is_upper cs ->
  forall bs, Forall (fun c => 0 <= c < 256) bs -> pack cs = pack bs ->
             exists k, bs = cs ++ replicate k 0.
Proof.
  induction 1 as [|c cs Hc Hcs IH]; intros bs Hbs Hp.
  - exists (length bs). apply pack_zero; [assumption | now rewrite <- Hp].
  - pose proof (pack_bounds cs (upper_byte cs Hcs)) as Hpc.
    unfold is_upper, CHAR_A, CHAR_Z in Hc. cbn [pack] in Hp.
    destruct Hbs as [|b bs Hb Hbs]; [cbn [pack] in Hp; lia|].
    cbn [pack] in Hp. pose proof (pack_bounds bs Hbs) as Hpb.
    assert (c = b) by lia. subst b.
    destruct (IH bs Hbs ltac:(lia)) as [k ->]. now exists k.
Qed.

(** X3: which names give a symbol that [isSymbolValid] accepts. For a name
    of at most seven characters the encoded symbol is valid exactly when
    the name starts with one or more characters whose low byte is a
    capital letter and every character after them is one that
    [StringToSymbol] drops. *)
Theorem StringToSymbol_valid_iff (h : gmap loc Asset) (this : loc) (a : Asset)
    (precision : Z) (str : jsstring) :
  is_u8 precision ->
  (length str <= 7)%nat ->
  h !! this = Some a ->
  StringToSymbol precision str = Ok (_symbol a) ->
  isSymbolValid this h = Ok (true, h)
  <-> exists cs k, cs <> [] /\ Forall is_upper cs
                   /\ map name_byte str = cs ++ replicate k 0.
Proof.
  intros Hp Hlen Hthis Henc.
  rewrite StringToSymbol_any in Henc by assumption. injection Henc as Hsym.
  pose proof (pack_bounds _ (name_bytes_range str)) as Hpb.
  rewrite length_map in Hpb.
  assert (Hpow : 256 ^ Z.of_nat (length str) <= 256 ^ 7)
    by (apply Z.pow_le_mono_r; lia).
  change (256 ^ 7) with 72057594037927936 in Hpow.
  assert (Hu64 : is_u64 (_symbol a)).
  { unfold is_u64, is_u8 in *. rewrite <- Hsym.
    change (2 ^ 64) with 18446744073709551616. change (2 ^ 8) with 256 in Hp. lia. }
  assert (Hdiv : _symbol a / 256 = pack (map name_byte str)).
  { rewrite <- Hsym.
    replace (precision + 256 * pack (map name_byte str))
      with (precision + pack (map name_byte str) * 256) by lia.
    rewrite Z.div_add, Z.div_small by (unfold is_u8 in Hp; lia). lia. }
  rewrite (isSymbolValid_true_iff h this a Hthis Hu64), Hdiv. split.
  - intros (cs & Hne & _ & Hup & Hpack).
    destruct (pack_eq_upper cs Hup (map name_byte str) (name_bytes_range str))
      as [k Hk]; [now symmetry|].
    now exists cs, k.
  - intros (cs & k & Hne & Hup & Hk). exists cs.
    split; [assumption|]. split.
    + apply (f_equal (@length Z)) in Hk.
      rewrite length_map, length_app in Hk. lia.
    + split; [assumption|]. now rewrite Hk, pack_app_zeros.
Qed.

Lemma StringToSymbol_valid_iff_witness :
  isSymbolValid 0%nat store_AB = Ok (true, store_AB)
  <-> exists cs k, cs <> [] /\ Forall is_upper cs
                   /\ map name_byte (lit "AB12") = cs ++ replicate k 0.
Proof.
  apply (StringToSymbol_valid_iff store_AB 0%nat (mkAsset 1 0x424104) 4 (lit "AB12")).
  - unfold is_u8; lia.
  - simpl; lia.
  - reflexivity.
  - reflexivity.
Defined.

Example names_and_validity :
  run (sy ← lift (StringToSymbol 4 (lit "AB12")); a ← new_Asset 1 sy; isSymbolValid a)
  = Ok true
  /\ run (sy ← lift (StringToSymbol 4 (lit "A1B")); a ← new_Asset 1 sy; isSymbolValid a)
     = Ok false
  /\ run (sy ← lift (StringToSymbol 4 (lit "1AB")); a ← new_Asset 1 sy; isSymbolValid a)
     = Ok false
  /\ run (sy ← lift (StringToSymbol 4 (lit "ugas")); a ← new_Asset 1 sy; isSymbolValid a)
     = Ok false.
Proof. repeat split; vm_compute; reflexivity. Qed.

Lemma name_byte_dropped (t : jsstring) :
  Forall (fun c => upperb (low_byte c) = false) t ->
  map name_byte t = replicate (length t) 0.
Proof.
  induction 1 as [|c t Hc _ IH]; [reflexivity|].
  cbn [map length replicate]. rewrite IH. unfold name_byte. now rewrite Hc.
Qed.

(** X4: characters dropped at the end of a name leave no trace: the name
    followed by characters whose low byte is no capital letter has the
    symbol of the name alone. *)
Theorem StringToSymbol_trailing_dropped (precision : Z) (s t : jsstring) :
  is_u8 precision ->
  (length (s ++ t) <= 7)%nat ->
  Forall (fun c => upperb (low_byte c) = false) t ->
  StringToSymbol precision (s ++ t) = StringToSymbol precision s.
Proof.
  intros Hp Hlen Ht.
  rewrite !StringToSymbol_any by (auto; rewrite length_app in Hlen; lia).
  rewrite map_app.
  now rewrite (name_byte_dropped t Ht), pack_app_zeros.
Qed.

Lemma StringToSymbol_trailing_dropped_witness :
  StringToSymbol 4 (lit "UGAS" ++ lit "1x") = StringToSymbol 4 (lit "UGAS").
Proof.
  apply (StringToSymbol_trailing_dropped 4 (lit "UGAS") (lit "1x")).
  - unfold is_u8; lia.
  - simpl; lia.
  - repeat constructor.
Defined.

(** X5: two names of at most seven capital letters, each with its
    precision, have the same symbol only when the precisions are the same
    and the names are the same. *)
Theorem StringToSymbol_injective (p q : Z) (s t : jsstring) :
  is_u8 p -> is_u8 q ->
  Forall is_upper s -> Forall is_upper t ->
  (length s <= 7)%nat -> (length t <= 7)%nat ->
  StringToSymbol p s = StringToSymbol q t ->
  p = q /\ s = t.
Proof.
  intros Hp Hq Hs Ht Hls Hlt Heq.
  rewrite !StringToSymbol_upper in Heq by assumption. injection Heq as Heq.
  unfold is_u8 in *. change (2 ^ 8) with 256 in *.
  assert (Hpq : p = q) by lia. split; [exact Hpq|].
  assert (Hpack : pack s = pack t) by lia.
  destruct (pack_eq_upper s Hs t (upper_byte t Ht) Hpack) as [k Hk].
  destruct k as [|k]; [now rewrite app_nil_r in Hk|].
  exfalso. rewrite Hk in Ht. apply Forall_app in Ht. destruct Ht as [_ Hz].
  inversion Hz as [|z zs Hz0 _]. unfold is_upper, CHAR_A in Hz0. lia.
Qed.

Lemma StringToSymbol_injective_witness :
  4 = 4 /\ lit "UGAS" = lit "UGAS".
Proof.
  apply (StringToSymbol_injective 4 4 (lit "UGAS") (lit "UGAS")).
  - unfold is_u8; lia.
  - unfold is_u8; lia.
  - repeat constructor; unfold CHAR_A, CHAR_Z; simpl; lia.
  - repeat constructor; unfold CHAR_A, CHAR_Z; simpl; lia.
  - simpl; lia.
  - simpl; lia.
  - reflexivity.
Defined.

(** ** Reading a symbol *)

(** X6: [symbolPrecision] and [symbolName] split a symbol without loss: the
    precision is below 256, the name below [2^56], and the name shifted
    left by eight bits, or-ed with the precision, is the symbol. On the
    symbol [StringToSymbol] makes from a precision and a name of at most
    seven characters, [symbolPrecision] gives that precision back. *)
Theorem symbol_fields (h : gmap loc Asset) (this : loc) (a : Asset) :
  h !! this = Some a ->
  is_u64 (_symbol a) ->
  exists pr nm,
    symbolPrecision this h = Ok (pr, h)
    /\ symbolName this h = Ok (nm, h)
    /\ 0 <= pr < 256 /\ 0 <= nm < 2 ^ 56
    /\ Z.lor (shl64 nm 8) pr = _symbol a
    /\ forall (p : Z) (str : jsstring),
        is_u8 p -> (length str <= 7)%nat ->
        StringToSymbol p str = Ok (_symbol a) -> pr = p.
Proof.
  intros Hthis Hsym.
  exists (_symbol a mod 256), (_symbol a / 256).
  pose proof (Z.mod_pos_bound (_symbol a) 256 ltac:(lia)) as Hpr.
  pose proof (Z.div_mod (_symbol a) 256 ltac:(lia)) as Hdm.
  unfold is_u64 in Hsym.
  assert (Hnm : 0 <= _symbol a / 256 < 2 ^ 56).
  { split; [apply Z.div_pos; lia | apply Z.div_lt_upper_bound; lia]. }
  split; [unfold symbolPrecision; run; now rewrite land_0xff|].
  split; [unfold symbolName; run; now rewrite shr64_8|].
  split; [exact Hpr|]. split; [exact Hnm|]. split.
  - unfold shl64, wrap64, wrap. change (8 mod 64) with 8.
    rewrite Z.shiftl_mul_pow2 by lia. rewrite Z.mod_small by lia.
    rewrite Z.lor_comm, lor_disjoint by lia. change (2 ^ 8) with 256. lia.
  - intros p str Hp Hlen Henc.
    rewrite StringToSymbol_any in Henc by assumption. injection Henc as Henc.
    rewrite <- Henc.
    replace (p + 256 * pack (map name_byte str))
      with (p + pack (map name_byte str) * 256) by lia.
    rewrite Z.mod_add by lia. apply Z.mod_small. exact Hp.
Qed.

Lemma symbol_fields_witness :
  exists pr nm,
    symbolPrecision 0%nat store_5_3 = Ok (pr, store_5_3)
    /\ symbolName 0%nat store_5_3 = Ok (nm, store_5_3)
    /\ 0 <= pr < 256 /\ 0 <= nm < 2 ^ 56
    /\ Z.lor (shl64 nm 8) pr = _symbol (mkAsset 5 UGAS)
    /\ forall (p : Z) (str : jsstring),
        is_u8 p -> (length str <= 7)%nat ->
        StringToSymbol p str = Ok (_symbol (mkAsset 5 UGAS)) -> pr = p.
Proof.
  apply (symbol_fields store_5_3 0%nat (mkAsset 5 UGAS)).
  - reflexivity.
  - unfold is_u64, UGAS; simpl; lia.
Defined.

Lemma SymbolNameLength_loop_count fuel :
  forall x m,
    0 <= m <= 7 -> 0 <= x < 256 ^ (7 - m) -> 7 - m < Z.of_nat fuel ->
    exists n,
      SymbolNameLength_loop fuel x m = Ok n
      /\ m <= n <= 7
      /\ (forall j, 0 <= j < n - m -> (x / 256 ^ j) mod 256 <> 0)
      /\ (n < 7 -> (x / 256 ^ (n - m)) mod 256 = 0).
Proof.
  induction fuel as [|fuel IH]; intros x m Hm Hx Hfuel; [lia|].
  cbn [SymbolNameLength_loop]. rewrite land_0xff, shr64_8.
  destruct (Z.eqb_spec (x mod 256) 0) as [Hz | Hnz]; cbn [negb andb].
  - exists m. split; [reflexivity|]. split; [lia|]. split; [intros j Hj; lia|].
    intros _. now rewrite Z.sub_diag, Z.pow_0_r, Z.div_1_r.
  - assert (Hm7 : m < 7).
    { destruct (Z.eq_dec m 7) as [-> | ]; [|lia].
      change (256 ^ (7 - 7)) with 1 in Hx. replace x with 0 in Hnz by lia.
      now rewrite Z.mod_0_l in Hnz. }
    replace (m <=? 7) with true by (symmetry; apply Z.leb_le; lia).
    assert (Hx' : 0 <= x / 256 < 256 ^ (7 - (m + 1))).
    { replace (7 - m) with (1 + (7 - (m + 1))) in Hx by lia.
      rewrite Z.pow_add_r in Hx by lia. change (256 ^ 1) with 256 in Hx.
      split; [apply Z.div_pos; lia | apply Z.div_lt_upper_bound; lia]. }
    destruct (IH (x / 256) (m + 1) ltac:(lia) Hx' ltac:(lia))
      as (n & Hrun & Hn & Hnonzero & Hstop).
    exists n. split; [exact Hrun|]. split; [lia|]. split.
    + intros j Hj. destruct (Z.eq_dec j 0) as [-> | Hj0].
      * now rewrite Z.pow_0_r, Z.div_1_r.
      * replace j with (1 + (j - 1)) by lia.
        rewrite Z.pow_add_r, <- Z.div_div by lia. change (256 ^ 1) with 256.
        apply Hnonzero. lia.
    + intros Hn7. replace (n - m) with (1 + (n - (m + 1))) by lia.
      rewrite Z.pow_add_r, <- Z.div_div by lia. change (256 ^ 1) with 256.
      now apply Hstop.
Qed.

(** X7: for every symbol [SymbolNameLength] returns a number from 0 to 7:
    the number of name bytes in front of the first zero byte, whether those
    bytes are letters or not. *)
Theorem SymbolNameLength_counts (symbolName : Z) :
  is_u64 symbolName ->
  exists n,
    SymbolNameLength symbolName = Ok n
    /\ 0 <= n <= 7
    /\ (forall j, 0 <= j < n -> (symbolName / 256 ^ (j + 1)) mod 256 <> 0)
    /\ (n < 7 -> (symbolName / 256 ^ (n + 1)) mod 256 = 0).
Proof.
  intros Hsym. unfold is_u64 in Hsym. unfold SymbolNameLength. rewrite shr64_8.
  assert (Hx : 0 <= symbolName / 256 < 256 ^ (7 - 0)).
  { split; [apply Z.div_pos; lia | apply Z.div_lt_upper_bound; lia]. }
  destruct (SymbolNameLength_loop_count 9 (symbolName / 256) 0 ltac:(lia) Hx ltac:(lia))
    as (n & Hrun & Hn & Hnonzero & Hstop).
  exists n. split; [exact Hrun|]. split; [lia|]. split.
  - intros j Hj. rewrite Z.pow_add_r, Z.mul_comm, <- Z.div_div by lia.
    change (256 ^ 1) with 256. apply Hnonzero. lia.
  - intros Hn7. rewrite Z.pow_add_r, Z.mul_comm, <- Z.div_div by lia.
    change (256 ^ 1) with 256. rewrite <- (Z.sub_0_r n) at 1. now apply Hstop.
Qed.

Lemma SymbolNameLength_counts_witness :
  exists n,
    SymbolNameLength 0x4100414104 = Ok n
    /\ 0 <= n <= 7
    /\ (forall j, 0 <= j < n -> (0x4100414104 / 256 ^ (j + 1)) mod 256 <> 0)
    /\ (n < 7 -> (0x4100414104 / 256 ^ (n + 1)) mod 256 = 0).
Proof.
  apply (SymbolNameLength_counts 0x4100414104).
  unfold is_u64; lia.
Defined.

(** ** Comparisons as an order *)

(** X8: the comparisons agree with each other. [gt] is [lt] with the
    operands exchanged, [gte] is [lte] exchanged and [eq] is symmetric;
    [lte] is [lt] or [eq], and [gte] is [gt] or [eq]. On assets of one
    symbol exactly one of [lt], [eq], [gt] holds; on assets of different
    symbols none does, so that [gte] is the negation of [lt] exactly when
    the symbols are the same. *)
Theorem compare_order (h : gmap loc Asset) (x y : loc) (a b : Asset) :
  h !! x = Some a ->
  h !! y = Some b ->
  exists l e g : bool,
    lt x y h = Ok (l, h) /\ eq x y h = Ok (e, h) /\ gt x y h = Ok (g, h)
    /\ lte x y h = Ok (l || e, h) /\ gte x y h = Ok (g || e, h)
    /\ gt y x h = Ok (l, h) /\ lt y x h = Ok (g, h) /\ eq y x h = Ok (e, h)
    /\ gte y x h = Ok (l || e, h) /\ lte y x h = Ok (g || e, h)
    /\ (_symbol a = _symbol b ->
        (l, e, g) = (true, false, false) \/ (l, e, g) = (false, true, false)
        \/ (l, e, g) = (false, false, true))
    /\ (_symbol a <> _symbol b -> (l, e, g) = (false, false, false))
    /\ (g || e = negb l <-> _symbol a = _symbol b).
Proof.
  intros Hx Hy.
  destruct (Z.eq_dec (_symbol a) (_symbol b)) as [He | Hne].
  - destruct (compare_same h x y a b Hx Hy He) as (Hgt & Hgte & Hlt & Hlte & Heq).
    destruct (compare_same h y x b a Hy Hx (eq_sym He))
      as (Hgt' & Hgte' & Hlt' & Hlte' & Heq').
    exists (_amount a <? _amount b), (_amount a =? _amount b), (_amount a >? _amount b).
    rewrite Hgt, Hgte, Hlt, Hlte, Heq, Hgt', Hgte', Hlt', Hlte', Heq'.
    destruct (Z.ltb_spec (_amount a) (_amount b));
      destruct (Z.eqb_spec (_amount a) (_amount b));
      destruct (Z.gtb_spec (_amount a) (_amount b)); try lia;
      repeat split; try (do 2 f_equal; lia); auto; try tauto; try congruence.
  - destruct (compare_differ h x y a b Hx Hy Hne) as (Hgt & Hgte & Hlt & Hlte & Heq).
    destruct (compare_differ h y x b a Hy Hx (not_eq_sym Hne))
      as (Hgt' & Hgte' & Hlt' & Hlte' & Heq').
    exists false, false, false.
    rewrite Hgt, Hgte, Hlt, Hlte, Heq, Hgt', Hgte', Hlt', Hlte', Heq'.
    repeat split; auto; try tauto; try discriminate.
Qed.

Lemma compare_order_witness :
  exists l e g : bool,
    lt 0%nat 1%nat store_5_3 = Ok (l, store_5_3)
    /\ eq 0%nat 1%nat store_5_3 = Ok (e, store_5_3)
    /\ gt 0%nat 1%nat store_5_3 = Ok (g, store_5_3)
    /\ lte 0%nat 1%nat store_5_3 = Ok (l || e, store_5_3)
    /\ gte 0%nat 1%nat store_5_3 = Ok (g || e, store_5_3)
    /\ gt 1%nat 0%nat store_5_3 = Ok (l, store_5_3)
    /\ lt 1%nat 0%nat store_5_3 = Ok (g, store_5_3)
    /\ eq 1%nat 0%nat store_5_3 = Ok (e, store_5_3)
    /\ gte 1%nat 0%nat store_5_3 = Ok (l || e, store_5_3)
    /\ lte 1%nat 0%nat store_5_3 = Ok (g || e, store_5_3)
    /\ (UGAS = UGAS ->
        (l, e, g) = (true, false, false) \/ (l, e, g) = (false, true, false)
        \/ (l, e, g) = (false, false, true))
    /\ (UGAS <> UGAS -> (l, e, g) = (false, false, false))
    /\ (g || e = negb l <-> UGAS = UGAS).
Proof.
  apply (compare_order store_5_3 0%nat 1%nat (mkAsset 5 UGAS) (mkAsset 3 UGAS)).
  - reflexivity.
  - reflexivity.
Defined.

(** ** Objects and their copies *)

(** X9: [clone] makes a new object: its reference is none of the live
    ones, its fields are those of the original, every other object is as
    it was, and the copy is equal to the original by [eq]. Writing the
    amount of the copy afterwards leaves the original alone. *)
Theorem clone_fresh (h : gmap loc Asset) (this : loc) (a : Asset) :
  h !! this = Some a ->
  exists c h',
    clone this h = Ok (c, h')
    /\ h !! c = None
    /\ h' !! c = Some a
    /\ (forall r, r <> c -> h' !! r = h !! r)
    /\ eq c this h' = Ok (true, h')
    /\ forall v, v <= 2 ^ 62 - 1 -> 0 <= v ->
         (setAmount c v;; getAmount this) h'
         = Ok (_amount a, <[c := mkAsset v (_symbol a)]> h').
Proof.
  intros Hthis. exists (fresh (dom h)), (<[fresh (dom h) := a]> h).
  assert (Hnone : h !! fresh (dom h) = None).
  { apply not_elem_of_dom. apply is_fresh. }
  assert (Hne : fresh (dom h) <> this) by congruence.
  set (c := fresh (dom h)) in *. set (h' := <[c := a]> h).
  assert (Hc : h' !! c = Some a) by apply lookup_insert_eq.
  assert (Hthis' : h' !! this = Some a) by (unfold h'; now rewrite lookup_insert_ne).
  split; [now apply clone_Ok|]. split; [exact Hnone|]. split; [exact Hc|].
  split; [intros r Hr; unfold h'; now rewrite lookup_insert_ne|]. split.
  - destruct (compare_same h' c this a a Hc Hthis' eq_refl) as (_ & _ & _ & _ & Heq).
    now rewrite Heq, Z.eqb_refl.
  - intros v Hv Hv0. unfold setAmount, isAmountWithinRange.
    change MAX_AMOUNT with (2 ^ 62 - 1).
    replace (0 <=? v) with true by (symmetry; apply Z.leb_le; lia).
    replace (v <=? 2 ^ 62 - 1) with true by (symmetry; apply Z.leb_le; lia).
    cbn [andb]. run. unfold getAmount.
    apply rd_amount_Ok. now rewrite lookup_insert_ne.
Qed.

Lemma clone_fresh_witness :
  exists c h',
    clone 0%nat store_5_3 = Ok (c, h')
    /\ store_5_3 !! c = None
    /\ h' !! c = Some (mkAsset 5 UGAS)
    /\ (forall r, r <> c -> h' !! r = store_5_3 !! r)
    /\ eq c 0%nat h' = Ok (true, h')
    /\ forall v, v <= 2 ^ 62 - 1 -> 0 <= v ->
         (setAmount c v;; getAmount 0%nat) h'
         = Ok (_amount (mkAsset 5 UGAS), <[c := mkAsset v (_symbol (mkAsset 5 UGAS))]> h').
Proof.
  apply (clone_fresh store_5_3 0%nat (mkAsset 5 UGAS)).
  reflexivity.
Defined.

(** ** Arithmetic in place *)

(** X10: on two different objects of one symbol, [sub] followed by [add]
    of the same asset puts the store back as it was, whenever the [sub]
    succeeds. When the two references are one object the same chain
    leaves amount 0: the subtraction empties the argument as well. *)
Theorem sub_add_in_place (h : gmap loc Asset) (this rhs : loc) (a b : Asset) :
  h !! this = Some a ->
  h !! rhs = Some b ->
  _symbol b = _symbol a ->
  is_u64 (_amount a) ->
  is_u64 (_amount b) ->
  _amount b <= _amount a ->
  (this <> rhs -> (c ← sub this rhs; add c rhs) h = Ok (this, h))
  /\ (this = rhs ->
      (c ← sub this rhs; add c rhs) h
      = Ok (this, <[this := mkAsset 0 (_symbol a)]> h)).
Proof.
  intros Hthis Hrhs Hsym Ha Hb Hle.
  erewrite bind_Ok by (apply (sub_enough h this rhs a b); auto).
  rewrite wrap64_small by (unfold is_u64 in *; lia).
  set (d := mkAsset (_amount a - _amount b) (_symbol a)).
  set (h1 := <[this := d]> h).
  assert (H1 : h1 !! this = Some d) by apply lookup_insert_eq.
  split.
  - intros Hne.
    assert (H1r : h1 !! rhs = Some b) by (unfold h1; now rewrite lookup_insert_ne).
    rewrite (add_same h1 this rhs d b H1 H1r Hsym). cbn [_amount _symbol d].
    replace (_amount a - _amount b + _amount b) with (_amount a) by lia.
    rewrite wrap64_small by assumption.
    unfold h1. rewrite insert_insert_eq. do 2 f_equal.
    apply insert_id. now destruct a.
  - intros <-. assert (a = b) by congruence. subst b.
    rewrite (add_same h1 this this d d H1 H1 eq_refl). cbn [_amount _symbol d].
    replace (_amount a - _amount a + (_amount a - _amount a)) with 0 by lia.
    unfold h1. now rewrite insert_insert_eq.
Qed.

Lemma sub_add_in_place_witness :
  (0%nat <> 1%nat -> (c ← sub 0%nat 1%nat; add c 1%nat) store_5_3 = Ok (0%nat, store_5_3))
  /\ (0%nat = 1%nat ->
      (c ← sub 0%nat 1%nat; add c 1%nat) store_5_3
      = Ok (0%nat, <[0%nat := mkAsset 0 (_symbol (mkAsset 5 UGAS))]> store_5_3)).
Proof.
  apply (sub_add_in_place store_5_3 0%nat 1%nat (mkAsset 5 UGAS) (mkAsset 3 UGAS)).
  - reflexivity.
  - reflexivity.
  - reflexivity.
  - unfold is_u64; simpl; lia.
  - unfold is_u64; simpl; lia.
  - simpl; lia.
Defined.

(** X11: on two different objects of one symbol, [add] followed by [sub]
    of the same asset puts the store back as it was when the sum of the
    amounts fits 64 bits; when it does not, the [add] still succeeds, with
    the sum reduced modulo [2^64], and it is the [sub] that aborts, with
    its insufficient-amount message. *)
Theorem add_sub_in_place (h : gmap loc Asset) (this rhs : loc) (a b : Asset) :
  h !! this = Some a ->
  h !! rhs = Some b ->
  this <> rhs ->
  _symbol b = _symbol a ->
  is_u64 (_amount a) ->
  is_u64 (_amount b) ->
  (_amount a + _amount b < 2 ^ 64 ->
   (c ← add this rhs; sub c rhs) h = Ok (this, h))
  /\ (2 ^ 64 <= _amount a + _amount b ->
      (c ← add this rhs; sub c rhs) h = Abort sub_insufficient).
Proof.
  intros Hthis Hrhs Hne Hsym Ha Hb.
  erewrite bind_Ok by (apply (add_same h this rhs a b); auto).
  set (d := mkAsset (wrap64 (_amount a + _amount b)) (_symbol a)).
  set (h1 := <[this := d]> h).
  assert (H1 : h1 !! this = Some d) by apply lookup_insert_eq.
  assert (H1r : h1 !! rhs = Some b) by (unfold h1; now rewrite lookup_insert_ne).
  unfold is_u64 in *. split; intros Hsum.
  - assert (Hw : wrap64 (_amount a + _amount b) = _amount a + _amount b)
      by (apply wrap64_small; unfold is_u64; lia).
    rewrite (sub_enough h1 this rhs d b H1 H1r Hsym) by (cbn [_amount d]; lia).
    cbn [_amount _symbol d]. rewrite Hw.
    replace (_amount a + _amount b - _amount b) with (_amount a) by lia.
    rewrite wrap64_small by assumption.
    unfold h1. rewrite insert_insert_eq. do 2 f_equal.
    apply insert_id. now destruct a.
  - assert (Hw : wrap64 (_amount a + _amount b) = _amount a + _amount b - 2 ^ 64).
    { unfold wrap64, wrap. symmetry.
      apply Z.mod_unique with 1; lia. }
    apply (sub_less h1 this rhs d b H1 H1r Hsym). cbn [_amount d]. lia.
Qed.

Lemma add_sub_in_place_witness :
  (5 + 3 < 2 ^ 64 ->
   (c ← add 0%nat 1%nat; sub c 1%nat) store_5_3 = Ok (0%nat, store_5_3))
  /\ (2 ^ 64 <= 5 + 3 ->
      (c ← add 0%nat 1%nat; sub c 1%nat) store_5_3 = Abort sub_insufficient).
Proof.
  apply (add_sub_in_place store_5_3 0%nat 1%nat (mkAsset 5 UGAS) (mkAsset 3 UGAS)).
  - reflexivity.
  - reflexivity.
  - discriminate.
  - reflexivity.
  - unfold is_u64; simpl; lia.
  - unfold is_u64; simpl; lia.
Defined.

(** X12: [multi] followed by [divide] by the same non-zero factor puts
    the store back as it was when the product fits 64 bits. [divide]
    followed by [multi] by the same factor loses the remainder: it leaves
    the amount minus the amount modulo the factor. *)
Theorem multi_divide_compose (h : gmap loc Asset) (this : loc) (a : Asset) (f : Z) :
  h !! this = Some a ->
  is_u64 (_amount a) ->
  is_u64 f ->
  f <> 0 ->
  (_amount a * f < 2 ^ 64 ->
   (c ← multi this f; divide c f) h = Ok (this, h))
  /\ (c ← divide this f; multi c f) h
     = Ok (this, <[this := mkAsset (_amount a - _amount a mod f) (_symbol a)]> h).
Proof.
  intros Hthis Ha Hf Hf0. unfold is_u64 in *.
  assert (Hdiv : forall h' x, h' !! this = Some x ->
            divide this f h'
            = Ok (this, <[this := mkAsset (_amount x / f) (_symbol x)]> h')).
  { intros h' x Hx. unfold divide.
    replace (f =? 0) with false by (symmetry; apply Z.eqb_neq; lia).
    cbn [negb]. now run. }
  assert (Hmul : forall h' x, h' !! this = Some x ->
            multi this f h'
            = Ok (this, <[this := mkAsset (wrap64 (_amount x * f)) (_symbol x)]> h')).
  { intros h' x Hx. unfold multi. now run. }
  split.
  - intros Hprod. erewrite bind_Ok by (apply Hmul; eassumption).
    erewrite Hdiv by apply lookup_insert_eq. cbn [_amount _symbol].
    rewrite wrap64_small by (unfold is_u64; nia).
    rewrite Z.div_mul by lia. rewrite insert_insert_eq. do 2 f_equal.
    apply insert_id. now destruct a.
  - erewrite bind_Ok by (apply Hdiv; eassumption).
    erewrite Hmul by apply lookup_insert_eq. cbn [_amount _symbol].
    rewrite insert_insert_eq. do 3 f_equal.
    pose proof (Z.div_mod (_amount a) f Hf0) as Hdm.
    pose proof (Z.mod_pos_bound (_amount a) f ltac:(lia)) as Hmod.
    assert (Hq : _amount a / f * f = _amount a - _amount a mod f) by lia.
    pose proof (Z.mod_le (_amount a) f ltac:(lia) ltac:(lia)) as Hle.
    rewrite Hq. f_equal. apply wrap64_small. unfold is_u64. lia.
Qed.

Lemma multi_divide_compose_witness :
  (5 * 2 < 2 ^ 64 ->
   (c ← multi 0%nat 2; divide c 2) store_5_3 = Ok (0%nat, store_5_3))
  /\ (c ← divide 0%nat 2; multi c 2) store_5_3
     = Ok (0%nat, <[0%nat := mkAsset (5 - 5 mod 2) UGAS]> store_5_3).
Proof.
  apply (multi_divide_compose store_5_3 0%nat (mkAsset 5 UGAS) 2).
  - reflexivity.
  - unfold is_u64; simpl; lia.
  - unfold is_u64; lia.
  - lia.
Defined.

(** ** Validity of an asset *)

Lemma isValid_run (h : gmap loc Asset) (this : loc) (a : Asset) :
  h !! this = Some a ->
  isValid this h
  = if isAmountWithinRange (_amount a) then isSymbolValid this h else Ok (false, h).
Proof.
  intros Hthis. unfold isValid. run.
  now destruct (isAmountWithinRange (_amount a)).
Qed.

Lemma isAmountWithinRange_iff v :
  isAmountWithinRange v = true <-> 0 <= v <= 2 ^ 62 - 1.
Proof.
  unfold isAmountWithinRange. change MAX_AMOUNT with (2 ^ 62 - 1).
  rewrite andb_true_iff, !Z.leb_le. tauto.
Qed.

(** The answer of [isSymbolValid] depends on the symbol and on nothing
    else in the store. *)
Lemma isSymbolValid_same_symbol (h h' : gmap loc Asset) (this : loc) (a a' : Asset) b :
  h !! this = Some a -> h' !! this = Some a' -> _symbol a' = _symbol a ->
  isSymbolValid this h = Ok (b, h) -> isSymbolValid this h' = Ok (b, h').
Proof.
  intros Hthis Hthis' Hsym. unfold isSymbolValid.
  erewrite !bind_Ok by (apply rd_symbol_Ok; eassumption). rewrite Hsym.
  unfold lift, mbind, result_bind, rbind, mret, result_ret.
  destruct (isSymbolValid_for 8 (shr64 (_symbol a) 8) 0); congruence.
Qed.

Lemma isValid_true (h : gmap loc Asset) (this : loc) (a : Asset) :
  h !! this = Some a ->
  isValid this h = Ok (true, h)
  <-> isAmountWithinRange (_amount a) = true /\ isSymbolValid this h = Ok (true, h).
Proof.
  intros Hthis. rewrite (isValid_run h this a Hthis).
  destruct (isAmountWithinRange (_amount a)); split.
  - tauto.
  - tauto.
  - discriminate.
  - intros [? _]; discriminate.
Qed.

Lemma isValid_kept (h h' : gmap loc Asset) (this : loc) (a a' : Asset) :
  h !! this = Some a -> h' !! this = Some a' ->
  _symbol a' = _symbol a -> 0 <= _amount a' <= 2 ^ 62 - 1 ->
  isValid this h = Ok (true, h) -> isValid this h' = Ok (true, h').
Proof.
  intros Hthis Hthis' Hsym Ham Hv.
  apply (isValid_true h this a Hthis) in Hv. destruct Hv as [_ Hsv].
  apply (isValid_true h' this a' Hthis'). split.
  - now apply isAmountWithinRange_iff.
  - now apply (isSymbolValid_same_symbol h h' this a a').
Qed.

(** X13: [isValid] returns [true] exactly when the amount is at most
    [2^62 - 1] and the name bytes of the symbol are between one and seven
    capital letters followed by zero bytes; any precision byte passes. *)
Theorem isValid_iff (h : gmap loc Asset) (this : loc) (a : Asset) :
  h !! this = Some a ->
  is_u64 (_amount a) ->
  is_u64 (_symbol a) ->
  isValid this h = Ok (true, h)
  <-> _amount a <= 2 ^ 62 - 1
      /\ exists cs, cs <> [] /\ (length cs <= 7)%nat /\ Forall is_upper cs
                    /\ _symbol a / 256 = pack cs.
Proof.
  intros Hthis Ham Hsym.
  rewrite (isValid_true h this a Hthis), isAmountWithinRange_iff.
  rewrite (isSymbolValid_true_iff h this a Hthis Hsym).
  unfold is_u64 in Ham. intuition lia.
Qed.

Lemma isValid_iff_witness :
  isValid 0%nat store_5_3 = Ok (true, store_5_3)
  <-> _amount (mkAsset 5 UGAS) <= 2 ^ 62 - 1
      /\ exists cs, cs <> [] /\ (length cs <= 7)%nat /\ Forall is_upper cs
                    /\ _symbol (mkAsset 5 UGAS) / 256 = pack cs.
Proof.
  apply (isValid_iff store_5_3 0%nat (mkAsset 5 UGAS)).
  - reflexivity.
  - unfold is_u64; simpl; lia.
  - unfold is_u64, UGAS; simpl; lia.
Defined.

Lemma divide_Ok (h : gmap loc Asset) (this : loc) (a : Asset) (f : Z) :
  h !! this = Some a -> f <> 0 ->
  divide this f h = Ok (this, <[this := mkAsset (_amount a / f) (_symbol a)]> h).
Proof.
  intros Hthis Hf0. unfold divide.
  replace (f =? 0) with false by (symmetry; apply Z.eqb_neq; lia).
  cbn [negb]. now run.
Qed.

(** X14: a valid asset stays valid under [setAmount] with any argument,
    under a [sub] that succeeds and under [divide] by any non-zero
    factor. *)
Theorem validity_kept (h : gmap loc Asset) (this : loc) (a : Asset) :
  h !! this = Some a ->
  isValid this h = Ok (true, h) ->
  (forall v, is_u64 v ->
     exists h', (setAmount this v;; isValid this) h = Ok (true, h'))
  /\ (forall rhs b, h !! rhs = Some b -> is_u64 (_amount b) ->
        _symbol b = _symbol a -> _amount b <= _amount a ->
        exists h', (c ← sub this rhs; isValid c) h = Ok (true, h'))
  /\ (forall f, is_u64 f -> f <> 0 ->
        exists h', (c ← divide this f; isValid c) h = Ok (true, h')).
Proof.
  intros Hthis Hv.
  pose proof (proj1 (isValid_true h this a Hthis) Hv) as [Hrange _].
  apply isAmountWithinRange_iff in Hrange.
  split; [|split].
  - intros v Hv64. unfold setAmount.
    destruct (isAmountWithinRange v) eqn:Hin.
    + apply isAmountWithinRange_iff in Hin.
      erewrite bind_Ok by (apply wr_amount_Ok; eassumption).
      eexists. apply (isValid_kept h _ this a (mkAsset v (_symbol a)));
        [exact Hthis | apply lookup_insert_eq | reflexivity | cbn [_amount]; lia
        | exact Hv].
    + exists h. now run.
  - intros rhs b Hrhs Hb Hsym Hle.
    erewrite bind_Ok by (apply (sub_enough h this rhs a b); auto).
    eexists.
    apply (isValid_kept h _ this a
             (mkAsset (wrap64 (_amount a - _amount b)) (_symbol a)));
      [exact Hthis | apply lookup_insert_eq | reflexivity | | exact Hv].
    cbn [_amount]. unfold is_u64 in Hb.
    rewrite wrap64_small by (unfold is_u64; lia). lia.
  - intros f Hf Hf0.
    erewrite bind_Ok by (apply divide_Ok; eassumption).
    eexists.
    apply (isValid_kept h _ this a (mkAsset (_amount a / f) (_symbol a)));
      [exact Hthis | apply lookup_insert_eq | reflexivity | | exact Hv].
    cbn [_amount]. unfold is_u64 in Hf. split.
    + apply Z.div_pos; lia.
    + apply Z.le_trans with (_amount a); [|lia].
      apply Z.div_le_upper_bound; nia.
Qed.

Lemma validity_kept_witness :
  (forall v, is_u64 v ->
     exists h', (setAmount 0%nat v;; isValid 0%nat) store_5_3 = Ok (true, h'))
  /\ (forall rhs b, store_5_3 !! rhs = Some b -> is_u64 (_amount b) ->
        _symbol b = _symbol (mkAsset 5 UGAS) -> _amount b <= _amount (mkAsset 5 UGAS) ->
        exists h', (c ← sub 0%nat rhs; isValid c) store_5_3 = Ok (true, h'))
  /\ (forall f, is_u64 f -> f <> 0 ->
        exists h', (c ← divide 0%nat f; isValid c) store_5_3 = Ok (true, h')).
Proof.
  apply (validity_kept store_5_3 0%nat (mkAsset 5 UGAS)).
  - reflexivity.
  - reflexivity.
Defined.

(** ** Records on a stream *)

Lemma length_record_bytes v w : length (record_bytes v w) = 16%nat.
Proof. unfold record_bytes. now rewrite length_app, !length_le_bytes. Qed.

Lemma record_bytes_inj v w v' w' :
  is_u64 v -> is_u64 w -> is_u64 v' -> is_u64 w' ->
  record_bytes v w = record_bytes v' w' -> v = v' /\ w = w'.
Proof.
  intros Hv Hw Hv' Hw' Heq. unfold record_bytes in Heq.
  apply app_inj_1 in Heq; [|now rewrite !length_le_bytes].
  destruct Heq as [H1 H2].
  apply (f_equal le_value) in H1. apply (f_equal le_value) in H2.
  rewrite !le_value_le_bytes_u64 in H1, H2 by assumption. auto.
Qed.

Lemma DataStream_eq (s t : DataStream) :
  buffer s = buffer t -> pos s = pos t -> s = t.
Proof. destruct s, t. cbn. now intros -> ->. Qed.

Lemma write_pair (ds : DataStream) v w :
  (pos ds <= length (buffer ds))%nat ->
  write_u64 (write_u64 ds v) w
  = mkDataStream (take (pos ds) (buffer ds) ++ record_bytes v w
                  ++ drop (pos ds + 16) (buffer ds)) (pos ds + 16).
Proof.
  intros Hpos. apply DataStream_eq.
  - rewrite write_write_buffer by assumption. cbn [buffer]. unfold record_bytes.
    now rewrite <- !app_assoc.
  - cbn [write_u64 pos]. lia.
Qed.

Lemma read_pair (pre post : list Z) (p : nat) v w :
  p = length pre -> is_u64 v -> is_u64 w ->
  let buf := pre ++ record_bytes v w ++ post in
  read_u64 (mkDataStream buf p) = Ok (v, mkDataStream buf (p + 8))
  /\ read_u64 (mkDataStream buf (p + 8)) = Ok (w, mkDataStream buf (p + 8 + 8)).
Proof.
  intros -> Hv Hw buf. unfold read_u64, buf, record_bytes. cbn [buffer pos].
  rewrite !length_app, !length_le_bytes. split.
  - destruct (decide _) as [_|Hn]; [|lia].
    rewrite drop_app_length, <- !app_assoc.
    rewrite take_app_length' by (symmetry; apply length_le_bytes).
    now rewrite le_value_le_bytes_u64.
  - destruct (decide _) as [_|Hn]; [|lia].
    rewrite drop_app_add, <- !app_assoc.
    rewrite drop_app_length' by (symmetry; apply length_le_bytes).
    rewrite take_app_length' by (symmetry; apply length_le_bytes).
    now rewrite le_value_le_bytes_u64.
Qed.

Lemma Asset_serialize_Ok (h : gmap loc Asset) (x : loc) (a : Asset) (ds : DataStream) :
  h !! x = Some a ->
  serialize x ds h = Ok (write_u64 (write_u64 ds (_amount a)) (_symbol a), h).
Proof.
  intros Hx. unfold serialize, Asset_Serializable, Asset_serialize. now run.
Qed.

Lemma Asset_deserialize_at (h : gmap loc Asset) (y : loc) (b : Asset)
    (pre post : list Z) (p : nat) v w :
  h !! y = Some b -> p = length pre -> is_u64 v -> is_u64 w ->
  let buf := pre ++ record_bytes v w ++ post in
  deserialize y (mkDataStream buf p) h
  = Ok (mkDataStream buf (p + 8 + 8), <[y := mkAsset v w]> h).
Proof.
  intros Hy Hp Hv Hw buf.
  destruct (read_pair pre post p v w Hp Hv Hw) as [H1 H2]. fold buf in H1, H2.
  unfold deserialize, Asset_Serializable, Asset_deserialize.
  rewrite H1, lift_Ok. run.
  set (h1 := <[y := _]> h).
  assert (Hy1 : h1 !! y = Some (mkAsset v (_symbol b))) by apply lookup_insert_eq.
  rewrite H2, lift_Ok. run. unfold h1. now rewrite insert_insert_eq.
Qed.

Lemma PermissionLevel_serialize_Ok (h : gmap loc PermissionLevel) (x : loc)
    (p : PermissionLevel) (ds : DataStream) :
  h !! x = Some p ->
  serialize x ds h = Ok (write_u64 (write_u64 ds (actor p)) (permission p), h).
Proof.
  intros Hx. unfold serialize, PermissionLevel_Serializable, PermissionLevel_serialize.
  now run.
Qed.

Lemma PermissionLevel_deserialize_at (h : gmap loc PermissionLevel) (y : loc)
    (q : PermissionLevel) (pre post : list Z) (p : nat) v w :
  h !! y = Some q -> p = length pre -> is_u64 v -> is_u64 w ->
  let buf := pre ++ record_bytes v w ++ post in
  deserialize y (mkDataStream buf p) h
  = Ok (mkDataStream buf (p + 8 + 8), <[y := mkPermissionLevel v w]> h).
Proof.
  intros Hy Hp Hv Hw buf.
  destruct (read_pair pre post p v w Hp Hv Hw) as [H1 H2]. fold buf in H1, H2.
  unfold deserialize, PermissionLevel_Serializable, PermissionLevel_deserialize.
  rewrite H1, lift_Ok. run.
  set (h1 := <[y := _]> h).
  assert (Hy1 : h1 !! y = Some (mkPermissionLevel v (permission q)))
    by apply lookup_insert_eq.
  rewrite H2, lift_Ok. run. unfold h1. now rewrite insert_insert_eq.
Qed.

Lemma equal_run (h : gmap loc PermissionLevel) (x y : loc) (p q : PermissionLevel) :
  h !! x = Some p -> h !! y = Some q ->
  equal x y h = Ok ((actor p =? actor q) && (permission p =? permission q), h).
Proof.
  intros Hx Hy. unfold equal. run.
  destruct (actor p =? actor q); now run.
Qed.

Lemma same_bytes_iff (ds : DataStream) v w v' w' :
  (pos ds <= length (buffer ds))%nat ->
  is_u64 v -> is_u64 w -> is_u64 v' -> is_u64 w' ->
  buffer (write_u64 (write_u64 ds v) w) = buffer (write_u64 (write_u64 ds v') w')
  <-> v = v' /\ w = w'.
Proof.
  intros Hpos Hv Hw Hv' Hw'. rewrite !write_pair by assumption. cbn [buffer]. split.
  - intros Heq. apply app_inv_head in Heq.
    apply app_inj_1 in Heq; [|now rewrite !length_record_bytes].
    now apply record_bytes_inj.
  - now intros [-> ->].
Qed.

(** X15: serialisation tells objects apart exactly as the equality
    methods do. Written at the same place of a stream, two assets leave
    the same bytes exactly when [eq] returns [true] on them, and two
    permission levels exactly when [equal] returns [true]. *)
Theorem serialize_injective :
  (forall (h : gmap loc Asset) (x y : loc) (a b : Asset) (ds : DataStream),
      h !! x = Some a -> h !! y = Some b ->
      is_u64 (_amount a) -> is_u64 (_symbol a) ->
      is_u64 (_amount b) -> is_u64 (_symbol b) ->
      (pos ds <= length (buffer ds))%nat ->
      exists outx outy,
        serialize x ds h = Ok (outx, h) /\ serialize y ds h = Ok (outy, h)
        /\ (buffer outx = buffer outy <-> eq x y h = Ok (true, h)))
  /\ (forall (h : gmap loc PermissionLevel) (x y : loc) (p q : PermissionLevel)
        (ds : DataStream),
      h !! x = Some p -> h !! y = Some q ->
      is_u64 (actor p) -> is_u64 (permission p) ->
      is_u64 (actor q) -> is_u64 (permission q) ->
      (pos ds <= length (buffer ds))%nat ->
      exists outx outy,
        serialize x ds h = Ok (outx, h) /\ serialize y ds h = Ok (outy, h)
        /\ (buffer outx = buffer outy <-> equal x y h = Ok (true, h))).
Proof.
  split.
  - intros h x y a b ds Hx Hy Ha1 Ha2 Hb1 Hb2 Hpos.
    do 2 eexists. split; [exact (Asset_serialize_Ok h x a ds Hx)|].
    split; [exact (Asset_serialize_Ok h y b ds Hy)|].
    rewrite same_bytes_iff by assumption.
    destruct (Z.eq_dec (_symbol a) (_symbol b)) as [He | Hne].
    + destruct (compare_same h x y a b Hx Hy He) as (_ & _ & _ & _ & ->).
      destruct (Z.eqb_spec (_amount a) (_amount b)); split;
        try tauto; try discriminate; intros [? _]; congruence.
    + destruct (compare_differ h x y a b Hx Hy Hne) as (_ & _ & _ & _ & ->).
      split; [tauto | discriminate].
  - intros h x y p q ds Hx Hy Hp1 Hp2 Hq1 Hq2 Hpos.
    do 2 eexists. split; [exact (PermissionLevel_serialize_Ok h x p ds Hx)|].
    split; [exact (PermissionLevel_serialize_Ok h y q ds Hy)|].
    rewrite same_bytes_iff, (equal_run h x y p q) by assumption.
    destruct (Z.eqb_spec (actor p) (actor q));
      destruct (Z.eqb_spec (permission p) (permission q)); cbn [andb]; split;
      try tauto; try discriminate; intros [? ?]; congruence.
Qed.

Lemma serialize_injective_witness :
  (exists outx outy,
      serialize 0%nat (mkDataStream [] 0) store_5_3 = Ok (outx, store_5_3)
      /\ serialize 1%nat (mkDataStream [] 0) store_5_3 = Ok (outy, store_5_3)
      /\ (buffer outx = buffer outy <-> eq 0%nat 1%nat store_5_3 = Ok (true, store_5_3)))
  /\ (exists outx outy,
        serialize 0%nat (mkDataStream [] 0) store_tom = Ok (outx, store_tom)
        /\ serialize 1%nat (mkDataStream [] 0) store_tom = Ok (outy, store_tom)
        /\ (buffer outx = buffer outy
            <-> equal 0%nat 1%nat store_tom = Ok (true, store_tom))).
Proof.
  split.
  - apply (proj1 serialize_injective store_5_3 0%nat 1%nat
             (mkAsset 5 UGAS) (mkAsset 3 UGAS) (mkDataStream [] 0)).
    + reflexivity.
    + reflexivity.
    + unfold is_u64; simpl; lia.
    + unfold is_u64, UGAS; simpl; lia.
    + unfold is_u64; simpl; lia.
    + unfold is_u64, UGAS; simpl; lia.
    + simpl; lia.
  - apply (proj2 serialize_injective store_tom 0%nat 1%nat
             tom_active (mkPermissionLevel 0 0) (mkDataStream [] 0)).
    + reflexivity.
    + reflexivity.
    + unfold is_u64; simpl; lia.
    + unfold is_u64; simpl; lia.
    + unfold is_u64; simpl; lia.
    + unfold is_u64; simpl; lia.
    + simpl; lia.
Defined.

Lemma write_two_pairs (ds : DataStream) v w v' w' :
  (pos ds <= length (buffer ds))%nat ->
  write_u64 (write_u64 (write_u64 (write_u64 ds v) w) v') w'
  = mkDataStream (take (pos ds) (buffer ds) ++ record_bytes v w
                  ++ record_bytes v' w' ++ drop (pos ds + 32) (buffer ds))
                 (pos ds + 32).
Proof.
  intros Hpos. rewrite (write_pair ds v w Hpos).
  set (pre := take (pos ds) (buffer ds)).
  assert (Hpre : length pre = pos ds) by (unfold pre; apply length_take_le; lia).
  rewrite write_pair.
  2:{ cbn [buffer pos]. rewrite !length_app, Hpre, length_record_bytes. lia. }
  cbn [buffer pos].
  set (ra := record_bytes v w). set (rest := drop (pos ds + 16) (buffer ds)).
  assert (Hra : length (pre ++ ra) = (pos ds + 16)%nat)
    by (unfold ra; rewrite length_app, Hpre, length_record_bytes; lia).
  assert (Htake : take (pos ds + 16) (pre ++ ra ++ rest) = pre ++ ra).
  { rewrite app_assoc. apply take_app_length'. now symmetry. }
  assert (Hdrop : drop (pos ds + 16 + 16) (pre ++ ra ++ rest)
                  = drop (pos ds + 32) (buffer ds)).
  { rewrite app_assoc, drop_app_add' by (now symmetry).
    unfold rest. rewrite drop_drop. f_equal. lia. }
  rewrite Htake, Hdrop. apply DataStream_eq; cbn [buffer pos]; [|lia].
  now rewrite <- app_assoc.
Qed.

(** X16: records written one after another are read back in the same
    order. Two assets serialised in turn take 32 bytes, and two
    [deserialize] calls from where the first was written give the first
    and then the second; the same holds for two permission levels, as in
    the authorisation list of an action. *)
Theorem serialize_sequence :
  (forall (h : gmap loc Asset) (x y x' y' : loc) (a b a' b' : Asset)
      (ds : DataStream),
      h !! x = Some a -> h !! y = Some b ->
      h !! x' = Some a' -> h !! y' = Some b' ->
      is_u64 (_amount a) -> is_u64 (_symbol a) ->
      is_u64 (_amount b) -> is_u64 (_symbol b) ->
      (pos ds <= length (buffer ds))%nat ->
      exists out,
        (d ← serialize x ds; serialize y d) h = Ok (out, h)
        /\ pos out = (pos ds + 32)%nat
        /\ (d ← deserialize x' (rewind out (pos ds)); deserialize y' d) h
           = Ok (out, <[y' := b]> (<[x' := a]> h)))
  /\ (forall (h : gmap loc PermissionLevel) (x y x' y' : loc)
        (p q p' q' : PermissionLevel) (ds : DataStream),
      h !! x = Some p -> h !! y = Some q ->
      h !! x' = Some p' -> h !! y' = Some q' ->
      is_u64 (actor p) -> is_u64 (permission p) ->
      is_u64 (actor q) -> is_u64 (permission q) ->
      (pos ds <= length (buffer ds))%nat ->
      exists out,
        (d ← serialize x ds; serialize y d) h = Ok (out, h)
        /\ pos out = (pos ds + 32)%nat
        /\ (d ← deserialize x' (rewind out (pos ds)); deserialize y' d) h
           = Ok (out, <[y' := q]> (<[x' := p]> h))).
Proof.
  split.
  - intros h x y x' y' a b a' b' ds Hx Hy Hx' Hy' Ha1 Ha2 Hb1 Hb2 Hpos.
    eexists. split.
    { erewrite bind_Ok by (apply Asset_serialize_Ok; eassumption).
      rewrite (Asset_serialize_Ok _ _ _ _ Hy), write_two_pairs by assumption.
      reflexivity. }
    split; [reflexivity|]. unfold rewind. cbn [buffer pos].
    set (pre := take (pos ds) (buffer ds)).
    assert (Hpre : length pre = pos ds) by (unfold pre; apply length_take_le; lia).
    erewrite bind_Ok
      by (apply (Asset_deserialize_at h x' a' pre); [eassumption | now symmetry | ..];
          assumption).
    rewrite (app_assoc pre).
    set (h1 := <[x' := _]> h).
    assert (Hy1 : exists b1, h1 !! y' = Some b1).
    { unfold h1. rewrite lookup_insert. case_decide; eauto. }
    destruct Hy1 as [b1 Hy1].
    rewrite (Asset_deserialize_at h1 y' b1
               (pre ++ record_bytes (_amount a) (_symbol a)));
      [| assumption | rewrite length_app, Hpre, length_record_bytes; lia
       | assumption | assumption ].
    unfold h1.
    f_equal. f_equal.
    + apply DataStream_eq; cbn [buffer pos]; [|lia]. now rewrite <- app_assoc.
    + destruct a, b. reflexivity.
  - intros h x y x' y' p q p' q' ds Hx Hy Hx' Hy' Hp1 Hp2 Hq1 Hq2 Hpos.
    eexists. split.
    { erewrite bind_Ok by (apply PermissionLevel_serialize_Ok; eassumption).
      rewrite (PermissionLevel_serialize_Ok _ _ _ _ Hy), write_two_pairs by assumption.
      reflexivity. }
    split; [reflexivity|]. unfold rewind. cbn [buffer pos].
    set (pre := take (pos ds) (buffer ds)).
    assert (Hpre : length pre = pos ds) by (unfold pre; apply length_take_le; lia).
    erewrite bind_Ok
      by (apply (PermissionLevel_deserialize_at h x' p' pre);
          [eassumption | now symmetry | ..]; assumption).
    rewrite (app_assoc pre).
    set (h1 := <[x' := _]> h).
    assert (Hy1 : exists q1, h1 !! y' = Some q1).
    { unfold h1. rewrite lookup_insert. case_decide; eauto. }
    destruct Hy1 as [q1 Hy1].
    rewrite (PermissionLevel_deserialize_at h1 y' q1
               (pre ++ record_bytes (actor p) (permission p)));
      [| assumption | rewrite length_app, Hpre, length_record_bytes; lia
       | assumption | assumption ].
    unfold h1.
    f_equal. f_equal.
    + apply DataStream_eq; cbn [buffer pos]; [|lia]. now rewrite <- app_assoc.
    + destruct p, q. reflexivity.
Qed.

Lemma serialize_sequence_witness :
  (exists out,
      (d ← serialize 0%nat (mkDataStream [] 0); serialize 1%nat d) store_5_3
      = Ok (out, store_5_3)
      /\ pos out = (0 + 32)%nat
      /\ (d ← deserialize 1%nat (rewind out 0); deserialize 0%nat d) store_5_3
         = Ok (out, <[0%nat := mkAsset 3 UGAS]> (<[1%nat := mkAsset 5 UGAS]> store_5_3)))
  /\ (exists out,
        (d ← serialize 0%nat (mkDataStream [] 0); serialize 1%nat d) store_tom
        = Ok (out, store_tom)
        /\ pos out = (0 + 32)%nat
        /\ (d ← deserialize 1%nat (rewind out 0); deserialize 0%nat d) store_tom
           = Ok (out, <[0%nat := mkPermissionLevel 0 0]> (<[1%nat := tom_active]> store_tom))).
Proof.
  split.
  - apply (proj1 serialize_sequence store_5_3 0%nat 1%nat 1%nat 0%nat
             (mkAsset 5 UGAS) (mkAsset 3 UGAS) (mkAsset 3 UGAS) (mkAsset 5 UGAS)
             (mkDataStream [] 0)).
    + reflexivity.
    + reflexivity.
    + reflexivity.
    + reflexivity.
    + unfold is_u64; simpl; lia.
    + unfold is_u64, UGAS; simpl; lia.
    + unfold is_u64; simpl; lia.
    + unfold is_u64, UGAS; simpl; lia.
    + simpl; lia.
  - apply (proj2 serialize_sequence store_tom 0%nat 1%nat 1%nat 0%nat
             tom_active (mkPermissionLevel 0 0) (mkPermissionLevel 0 0) tom_active
             (mkDataStream [] 0)).
    + reflexivity.
    + reflexivity.
    + reflexivity.
    + reflexivity.
    + unfold is_u64; simpl; lia.
    + unfold is_u64; simpl; lia.
    + unfold is_u64; simpl; lia.
    + unfold is_u64; simpl; lia.
    + simpl; lia.
Defined.

(** ** What [toString] shows of a symbol *)

Lemma toString_body_any x acc i :
  0 <= x ->
  toString_body (x, acc) i
  = (x / 256, acc ++ List.filter upperb [(x / 256) mod 256]).
Proof.
  intros Hx. unfold toString_body. rewrite shr64_8, land_0xff.
  rewrite wrap8_byte by (apply Z.mod_pos_bound; lia).
  unfold upperb. rewrite Z.geb_leb. cbn [List.filter].
  destruct ((CHAR_A <=? (x / 256) mod 256) && ((x / 256) mod 256 <=? CHAR_Z));
    [reflexivity | now rewrite app_nil_r].
Qed.

Lemma name_bytes_cons x (n : nat) :
  0 <= x ->
  map (fun j => (x / 256 ^ (j + 1)) mod 256) (seqZ 0 (Z.of_nat (S n)))
  = (x / 256) mod 256
    :: map (fun j => (x / 256 / 256 ^ (j + 1)) mod 256) (seqZ 0 (Z.of_nat n)).
Proof.
  intros Hx. rewrite (seqZ_cons 0 (Z.of_nat (S n))) by lia.
  cbn [map]. change (256 ^ (0 + 1)) with 256. f_equal.
  replace (Z.pred (Z.of_nat (S n))) with (Z.of_nat n) by lia.
  change (Z.succ 0) with (1 + 0). rewrite <- fmap_add_seqZ.
  change (Z.add 1 <$> seqZ 0 (Z.of_nat n)) with (map (Z.add 1) (seqZ 0 (Z.of_nat n))).
  rewrite map_map. apply map_ext_in. intros j Hj.
  apply list_elem_of_In, elem_of_seqZ in Hj.
  rewrite Z.div_div by (try lia; apply Z.pow_pos_nonneg; lia).
  rewrite <- Z.pow_succ_r by lia. do 3 f_equal. lia.
Qed.

Lemma toString_fold_any l :
  forall x acc, 0 <= x ->
    snd (fold_left toString_body l (x, acc))
    = acc ++ List.filter upperb
               (map (fun j => (x / 256 ^ (j + 1)) mod 256)
                    (seqZ 0 (Z.of_nat (length l)))).
Proof.
  induction l as [|i l IH]; intros x acc Hx.
  - cbn. now rewrite app_nil_r.
  - cbn [fold_left length]. rewrite toString_body_any by assumption.
    rewrite IH by (apply Z.div_pos; lia).
    rewrite name_bytes_cons by assumption.
    rewrite <- app_assoc. f_equal.
    change ((x / 256) mod 256
            :: map (fun j => (x / 256 / 256 ^ (j + 1)) mod 256)
                 (seqZ 0 (Z.of_nat (length l))))
      with ([(x / 256) mod 256]
            ++ map (fun j => (x / 256 / 256 ^ (j + 1)) mod 256)
                 (seqZ 0 (Z.of_nat (length l)))).
    now rewrite List.filter_app.
Qed.

(** X17: after the space [toString] prints the name bytes of the symbol
    that are capital letters, in order, and passes over every other byte;
    so a symbol with a zero byte or a foreign byte between letters, which
    [isSymbolValid] rejects, prints like the symbol of the letters
    alone. *)
Theorem toString_name_bytes (h : gmap loc Asset) (this : loc) (a : Asset) :
  h !! this = Some a ->
  is_u64 (_symbol a) ->
  0 <= _amount a < 2 ^ 63 ->
  _symbol a mod 256 <= 19 ->
  exists digits,
    formatAmount (_amount a) (_symbol a mod 256) = Ok digits
    /\ toString this h
       = Ok (digits ++ lit " " ++ List.filter upperb (name_bytes (_symbol a)), h).
Proof.
  intros Hthis Hsym Ham Hp.
  pose proof (Z.mod_pos_bound (_symbol a) 256 ltac:(lia)) as Hpr.
  assert (Hfmt : exists digits, formatAmount (_amount a) (_symbol a mod 256) = Ok digits).
  { destruct (Z.eq_dec (_symbol a mod 256) 0) as [-> | Hp0].
    - rewrite formatAmount_zero by assumption. eauto.
    - rewrite formatAmount_pos by lia. eauto. }
  destruct Hfmt as [digits Hfmt]. exists digits. split; [exact Hfmt|].
  unfold toString, amount_get. run.
  rewrite land_0xff, wrap8_byte by assumption.
  pose proof (toString_fold_any (seqZ 0 7) (_symbol a) [] ltac:(unfold is_u64 in Hsym; lia))
    as Hfold.
  destruct (fold_left toString_body (seqZ 0 7) (_symbol a, [])) as [x symbol].
  cbn [snd app] in Hfold. subst symbol. run. rewrite Hfmt. now run.
Qed.

Lemma toString_name_bytes_witness :
  exists digits,
    formatAmount (_amount (mkAsset 10000 0x4100414104)) (0x4100414104 mod 256) = Ok digits
    /\ toString 0%nat store_gap
       = Ok (digits ++ lit " " ++ List.filter upperb (name_bytes 0x4100414104), store_gap).
Proof.
  apply (toString_name_bytes store_gap 0%nat (mkAsset 10000 0x4100414104)).
  - reflexivity.
  - unfold is_u64; simpl; lia.
  - simpl; lia.
  - apply Z.leb_le; reflexivity.
Defined.

Example toString_gap :
  toString 0%nat store_gap = Ok (lit "1.0000 AAA", store_gap)
  /\ isSymbolValid 0%nat store_gap = Ok (false, store_gap).
Proof. split; vm_compute; reflexivity. Qed.

(** X18: [toString] loses nothing of the amount. Two assets with the same
    symbol, made from a precision of at most 19 and a name of at most
    seven capital letters, and with amounts below [2^63], print the same
    text only when their amounts are the same. *)
Theorem toString_injective (h : gmap loc Asset) (x y : loc) (a b : Asset)
    (p : Z) (s : jsstring) (t : jsstring) :
  h !! x = Some a ->
  h !! y = Some b ->
  _symbol a = _symbol b ->
  StringToSymbol p s = Ok (_symbol a) ->
  0 <= p <= 19 ->
  Forall is_upper s ->
  (length s <= 7)%nat ->
  0 <= _amount a < 2 ^ 63 ->
  0 <= _amount b < 2 ^ 63 ->
  toString x h = Ok (t, h) ->
  toString y h = Ok (t, h) ->
  _amount a = _amount b.
Proof.
  intros Hx Hy Hab Hsym Hp Hup Hlen Ha Hb Hta Htb.
  rewrite StringToSymbol_upper in Hsym by (auto; unfold is_u8; lia).
  injection Hsym as Hsym. symmetry in Hsym.
  rewrite (toString_run h x a p s) in Hta by assumption.
  rewrite (toString_run h y b p s) in Htb by (auto; congruence).
  assert (Hpow : 0 < 10 ^ p) by (apply Z.pow_pos_nonneg; lia).
  assert (Hbig : 2 ^ 63 < 10 ^ 20) by reflexivity.
  destruct (Z.eqb_spec p 0) as [-> | Hp0].
  - assert (Heq : utoa (_amount a) ++ lit " " ++ s = utoa (_amount b) ++ lit " " ++ s)
      by congruence.
    apply app_inv_tail in Heq. apply (f_equal dec_value) in Heq.
    rewrite !dec_value_utoa in Heq by lia. exact Heq.
  - assert (Heq : (utoa (_amount a / 10 ^ p) ++ lit "." ++ fraction (_amount a) p)
                  ++ lit " " ++ s
                  = (utoa (_amount b / 10 ^ p) ++ lit "." ++ fraction (_amount b) p)
                    ++ lit " " ++ s) by congruence.
    apply app_inv_tail in Heq.
    apply app_inj_2 in Heq.
    2:{ rewrite !length_app. f_equal.
        apply Nat2Z.inj. now rewrite !length_fraction by lia. }
    destruct Heq as [Hint Hfrac]. apply app_inv_head in Hfrac.
    apply (f_equal dec_value) in Hint. apply (f_equal dec_value) in Hfrac.
    rewrite !dec_value_fraction in Hfrac by lia.
    assert (Hda : 0 <= _amount a / 10 ^ p <= _amount a)
      by (split; [apply Z.div_pos; lia | apply Z.div_le_upper_bound; nia]).
    assert (Hdb : 0 <= _amount b / 10 ^ p <= _amount b)
      by (split; [apply Z.div_pos; lia | apply Z.div_le_upper_bound; nia]).
    rewrite !dec_value_utoa in Hint by lia.
    rewrite (Z.div_mod (_amount a) (10 ^ p)), (Z.div_mod (_amount b) (10 ^ p)) by lia.
    now rewrite Hint, Hfrac.
Qed.

Lemma toString_injective_witness : _amount (mkAsset 5 UGAS) = _amount (mkAsset 5 UGAS).
Proof.
  apply (toString_injective store_5_3 0%nat 0%nat (mkAsset 5 UGAS) (mkAsset 5 UGAS)
           4 (lit "UGAS") (lit "0.0005 UGAS")).
  - reflexivity.
  - reflexivity.
  - reflexivity.
  - reflexivity.
  - lia.
  - repeat constructor; unfold CHAR_A, CHAR_Z; simpl; lia.
  - simpl; lia.
  - simpl; lia.
  - simpl; lia.
  - vm_compute; reflexivity.
  - vm_compute; reflexivity.
Defined.
